(** * tipnyan: the poll loop of [cointipbot.py] and the row formatter of
      [ctb/ctb_stats.py], embedded as Rocq functions.

    Python objects that the bot mutates (the database, the Reddit inbox, the
    log, the wiki) live in one explicit [World]; a Python function becomes a
    computation in the state-and-exception monad [M].  Exceptions keep the
    state reached when they were raised, as in Python. *)

From Stdlib Require Import ZArith List String Ascii Bool Lia PrimFloat FloatOps SpecFloat
  DecimalString.
Import ListNotations.
Local Open Scope Z_scope.
Local Open Scope string_scope.

Set Implicit Arguments.
Set Warnings "-inexact-float".

(* ================================================================== *)
(** ** Python primitives used by the two source files *)

Module Py.

(** [str.lower] on the ASCII range. *)
Definition lower_ascii (c : ascii) : ascii :=
  let n := nat_of_ascii c in
  if (Nat.leb 65 n && Nat.leb n 90)%bool then ascii_of_nat (n + 32) else c.

Fixpoint lower (s : string) : string :=
  match s with
  | EmptyString => EmptyString
  | String c r => String (lower_ascii c) (lower r)
  end.

(** [k.find(sub)]: index of the first occurrence, [-1] when absent. *)
Definition find (k sub : string) : Z :=
  match String.index 0 sub k with
  | Some i => Z.of_nat i
  | None => -1
  end.

(** [x in [a, b, ...]] on strings. *)
Definition str_in (x : string) (l : list string) : bool :=
  existsb (String.eqb x) l.

(** [s[:n]] and [s[-n:]] for a non-negative literal [n]. *)
Definition take (n : nat) (s : string) : string := substring 0 n s.
Definition last (n : nat) (s : string) : string :=
  let len := String.length s in
  substring (len - n) (Nat.min n len) s.

(** A number as the configuration file gives it: an [int] or a
    [float], the latter an IEEE double. *)
Inductive number :=
| Int (z : Z)
| Float (f : float).

(** [x * 3600]: the product of integers on an [int]; on a [float] the
    product of doubles, rounded to nearest, the [int] 3600 being a double
    as it is. *)
Definition mul_3600 (x : number) : number :=
  match x with
  | Int z => Int (z * 3600)
  | Float f => Float (f * 3600)%float
  end.

(** [int(f)] on a double, whose value is [m * 2^e] up to sign:
    truncation towards zero, and no value where Python raises
    ([ValueError] on [nan], [OverflowError] on the infinities). *)
Definition int_of_float (f : float) : option Z :=
  match Prim2SF f with
  | S754_zero _ => Some 0
  | S754_finite s m e =>
      let v := if Z.leb 0 e then Z.shiftl (Zpos m) e
               else Z.shiftr (Zpos m) (- e) in
      Some (if s then - v else v)
  | S754_infinity _ | S754_nan => None
  end.

(** [int(x)]. *)
Definition int (x : number) : option Z :=
  match x with
  | Int z => Some z
  | Float f => int_of_float f
  end.

(** An expression that has a value, and that value. *)
Definition has_value {A : Type} (o : option A) : Prop :=
  match o with
  | Some _ => True
  | None => False
  end.

Definition the {A : Type} {o : option A} : has_value o -> A :=
  match o with
  | Some a => fun _ => a
  | None => fun H => False_rect A H
  end.

(** The exception classes that the source names or that the interpreter
    raises on the paths modelled here.  [SystemExit] is the only one that
    is not a subclass of [Exception]. *)
Inductive exn :=
| HTTPError
| ConnectionError
| Timeout
| RateLimitExceeded
| socket_timeout
| UnboundLocalError (name : string)
| TypeError (what : string)
| KeyError (key : string)
| Exception (msg : string)
| SystemExit (code : Z).

(** [isinstance(e, Exception)]. *)
Definition is_Exception (e : exn) : bool :=
  match e with
  | SystemExit _ => false
  | _ => true
  end.

End Py.
Export Py.

(* ================================================================== *)
(** ** Data *)

(** An unread inbox item as [check_inbox] reads it: [m.id], [m.author]
    ([None] for system messages), [m.was_comment], [m.subject], [m.body]. *)
Record Message := {
  m_id : string;
  m_author : option string;
  m_was_comment : bool;
  m_subject : string;
  m_body : string
}.

(** A row of the action table. *)
Record Action := {
  a_type : string;
  a_state : string;
  a_created_utc : Z;
  a_msg_id : string;
  a_from_user : string;
  a_coinval : float
}.

Definition set_state (s : string) (a : Action) : Action :=
  {| a_type := a_type a; a_state := s; a_created_utc := a_created_utc a;
     a_msg_id := a_msg_id a; a_from_user := a_from_user a;
     a_coinval := a_coinval a |}.

(** What a matching regular expression yields for a message. *)
Record Parsed := {
  p_type : string;
  p_coinval : float
}.

(** The in-memory action object built by [eval_comment] / [eval_message]:
    the parse result bound to the message it came from. *)
Record CtbAction := {
  act : Parsed;
  msg : Message
}.

(** [conf["misc"]["times"]["expire_pending_hours"]]: the number in the
    configuration file, with the evidence that [int(hours * 3600)],
    line 185, has a value.  It has one for every [int], and for every
    [float] but [nan], the infinities and the doubles whose product with
    3600 overflows. *)
Record Hours := {
  hours_value : Py.number;
  hours_int : Py.has_value (Py.int (Py.mul_3600 hours_value))
}.

(** [int(hours * 3600)], line 185. *)
Definition seconds_of (h : Hours) : Z := Py.the (hours_int h).

(** Whole hours, as in [expire_pending_hours: 48]. *)
Definition whole_hours (n : Z) : Hours :=
  {| hours_value := Py.Int n; hours_int := I |}.

(** The configuration keys read by the modelled code
    ([conf["reddit"]["auth"]["user"]] is [reddit_auth_user], and so on).
    [reddit_banned_users] and [reddit_messages_sorry] are used only for their
    truth value. *)
Record Conf := {
  reddit_auth_user : string;
  reddit_banned_users : bool;
  reddit_scan_batch_limit : nat;
  reddit_messages_sorry : bool;
  reddit_stats_subreddit : string;
  reddit_stats_page : string;
  reddit_stats_page_tips : string;
  misc_times_sleep_seconds : Z;
  misc_times_expire_pending_hours : Hours;
  misc_notify_enabled : bool;
  coin_symbol : string;
  coin_explorer_address : string;
  db_sql_tips_sql_set : string;
  db_sql_tips_sql_list : string;
  db_sql_tips_limit : Z
}.

Inductive level := DEBUG | INFO | WARNING | ERROR | EXCEPTION.

(** Observable effects, in the order they happen. *)
Inductive event :=
| EvLog (l : level) (fmt : string)
| EvGetUnread (limit : nat)
| EvMarkRead (msg_id : string)
| EvDo (atype : string) (msg_id : string)
| EvTell (user subj what : string) (msgobj : option string)
| EvExpire (msg_id : string)
| EvRegister (user : string)
| EvSleep (seconds : Z)
| EvNotify
| EvWikiEdit (page content : string).

(** Everything the bot can read or change.  [faults] is the script of the
    environment: every call that leaves the process (Reddit, database, coin
    daemon, SMTP) consumes its head, and raises when the head holds an
    exception.  An empty script means that nothing fails. *)
Record World := {
  unread : list Message;
  t_action : list Action;
  t_users : list string;
  balances : list (string * float);
  coin_balance : float;
  clock : Z;
  trace : list event;
  faults : list (option exn)
}.

Definition with_unread (u : list Message) (w : World) : World :=
  {| unread := u; t_action := t_action w; t_users := t_users w;
     balances := balances w; coin_balance := coin_balance w; clock := clock w;
     trace := trace w; faults := faults w |}.

Definition with_t_action (l : list Action) (w : World) : World :=
  {| unread := unread w; t_action := l; t_users := t_users w;
     balances := balances w; coin_balance := coin_balance w; clock := clock w;
     trace := trace w; faults := faults w |}.

Definition with_t_users (l : list string) (w : World) : World :=
  {| unread := unread w; t_action := t_action w; t_users := l;
     balances := balances w; coin_balance := coin_balance w; clock := clock w;
     trace := trace w; faults := faults w |}.

Definition with_balances (b : list (string * float)) (w : World) : World :=
  {| unread := unread w; t_action := t_action w; t_users := t_users w;
     balances := b; coin_balance := coin_balance w; clock := clock w;
     trace := trace w; faults := faults w |}.

Definition with_clock (c : Z) (w : World) : World :=
  {| unread := unread w; t_action := t_action w; t_users := t_users w;
     balances := balances w; coin_balance := coin_balance w; clock := c;
     trace := trace w; faults := faults w |}.

Definition with_faults (f : list (option exn)) (w : World) : World :=
  {| unread := unread w; t_action := t_action w; t_users := t_users w;
     balances := balances w; coin_balance := coin_balance w; clock := clock w;
     trace := trace w; faults := f |}.

Definition emit (e : event) (w : World) : World :=
  {| unread := unread w; t_action := t_action w; t_users := t_users w;
     balances := balances w; coin_balance := coin_balance w; clock := clock w;
     trace := trace w ++ [e]; faults := faults w |}.

(* ================================================================== *)
(** ** The state-and-exception monad *)

Definition M (A : Type) : Type := World -> (exn + A) * World.

Definition ret {A} (a : A) : M A := fun w => (inr a, w).

Definition bind {A B} (m : M A) (f : A -> M B) : M B :=
  fun w =>
    match m w with
    | (inr a, w') => f a w'
    | (inl e, w') => (inl e, w')
    end.

Definition raise {A} (e : exn) : M A := fun w => (inl e, w).

Definition modify (f : World -> World) : M unit := fun w => (inr tt, f w).

Definition gets {A} (f : World -> A) : M A := fun w => (inr (f w), w).

Declare Scope py_scope.
Delimit Scope py_scope with py.
Notation "x <- c ;; k" := (bind c (fun x => k))
  (at level 61, c at next level, right associativity) : py_scope.
Notation "c ;; k" := (bind c (fun _ => k))
  (at level 61, right associativity) : py_scope.
Local Open Scope py_scope.

(** [try: body / except ...:] with the handlers tried in order; [handlers e]
    is the body of the first clause that matches [e], if any. *)
Definition try_except {A} (body : M A) (handlers : exn -> option (M A)) : M A :=
  fun w =>
    match body w with
    | (inr a, w') => (inr a, w')
    | (inl e, w') =>
        match handlers e with
        | Some h => h w'
        | None => (inl e, w')
        end
    end.

(** [for x in l: body]. *)
Fixpoint for_each {A} (l : list A) (body : A -> M unit) : M unit :=
  match l with
  | [] => ret tt
  | x :: xs => body x ;; for_each xs body
  end.

(** A call that leaves the process. *)
Definition upstream : M unit :=
  fun w =>
    match faults w with
    | [] => (inr tt, w)
    | None :: fs => (inr tt, with_faults fs w)
    | Some e :: fs => (inl e, with_faults fs w)
    end.

Definition log (l : level) (fmt : string) : M unit := modify (emit (EvLog l fmt)).

(** [time.sleep(n)]. *)
Definition sleep (n : Z) : M unit :=
  modify (fun w => emit (EvSleep n) (with_clock (clock w + n) w)).

(* ================================================================== *)
(** ** The bot object and its collaborators *)

(** [self] / [ctb]: the configuration and the parts of the bot that are
    fixed once it is built.  [user_banned] is the [banned] attribute a
    [CtbUser] gets for a name; [regex_comment] and [regex_message] are the
    compiled patterns tried on a comment and on a private message;
    [executor] is what executing a parsed action does to the balances and the
    state it leaves the action in. *)
Record CointipBot := {
  conf : Conf;
  user_banned : string -> bool;
  regex_comment : Message -> option Parsed;
  regex_message : Message -> option Parsed;
  executor : CtbAction -> list (string * float) -> string * list (string * float)
}.

Module ctb_misc.

(** Modelled from the spec: [ctb_misc.praw_call] is not among the sources.
    Section 6 has the message source surface rate-limit, connection and
    timeout failures; the wrapped call either raises what the environment
    scripts or runs. *)
Definition praw_call {A} (f : M A) : M A := upstream ;; f.

End ctb_misc.

Module ctb_user.

(** Modelled from the spec: module [ctb_user] is not among the sources.
    A user object carries its name and whether the name is banned. *)
Record CtbUser := { name : string; banned : bool }.

(** Modelled from the spec: [CtbUser(name=..., ctb=...)], the constructor
    of the missing module. *)
Definition new (self : CointipBot) (n : string) : CtbUser :=
  {| name := n; banned := user_banned self n |}.

(** Modelled from the spec: section 3, a user is registered when a row for
    the name exists. *)
Definition is_registered (u : CtbUser) : M bool :=
  upstream ;; gets (fun w => existsb (String.eqb (name u)) (t_users w)).

(** Modelled from the spec: section 3, a user is created on
    registration. *)
Definition register (u : CtbUser) : M unit :=
  upstream ;;
  modify (fun w => emit (EvRegister (name u))
                        (with_t_users (t_users w ++ [name u]) w)).

(** Modelled from the spec: section 3, one balance per user name; a name
    without a row has none. *)
Fixpoint lookup_balance (n : string) (b : list (string * float)) : float :=
  match b with
  | [] => 0%float
  | (k, v) :: r => if String.eqb k n then v else lookup_balance n r
  end.

(** Modelled from the spec: section 3, the balance recorded for the user. *)
Definition get_balance (u : CtbUser) (kind : string) : M float :=
  upstream ;; gets (fun w => lookup_balance (name u) (balances w)).

(** Modelled from the spec: section 6, [reply(message_or_user, subject,
    body)]. *)
Definition tell (u : CtbUser) (subj what : string) (msgobj : option string)
  : M unit :=
  upstream ;; modify (emit (EvTell (name u) subj what msgobj)).

End ctb_user.

Module ctb_action.

(** Modelled from the spec: [ctb_action.check_action] is not among the
    sources.  Section 4.2, [exists(source_message_id)]: has this message
    already produced an action. *)
Definition check_action (msg_id : string) : M bool :=
  upstream ;;
  gets (fun w => existsb (fun a => String.eqb (a_msg_id a) msg_id) (t_action w)).

(** Modelled from the spec: section 4.2, [created_before]; the caller
    passes the bound as the SQL fragment ["< " + str(t)], a strict
    comparison. *)
Definition created_matches (created_utc : option Z) (a : Action) : bool :=
  match created_utc with
  | None => true
  | Some t => Z.ltb (a_created_utc a) t
  end.

(** Modelled from the spec: section 4.2, the rows [list] returns. *)
Definition selected (atype state : string) (created_utc : option Z)
           (a : Action) : bool :=
  String.eqb (a_type a) atype && String.eqb (a_state a) state
  && created_matches created_utc a.

(** Modelled from the spec: [ctb_action.get_actions] is not among the
    sources.  Section 4.2, [list(type, state, created_before=None)]. *)
Definition get_actions (atype state : string) (created_utc : option Z)
  : M (list Action) :=
  upstream ;; gets (fun w => filter (selected atype state created_utc) (t_action w)).

(** Modelled from the spec: section 4.1, the first matching pattern gives
    the action, none gives [None]; parsing has no side effect. *)
Definition eval_comment (m : Message) (self : CointipBot) : option CtbAction :=
  option_map (fun p => {| act := p; msg := m |}) (regex_comment self m).

(** Modelled from the spec: as [eval_comment], with the patterns for
    private messages. *)
Definition eval_message (m : Message) (self : CointipBot) : option CtbAction :=
  option_map (fun p => {| act := p; msg := m |}) (regex_message self m).

(** Modelled from the spec: section 3, [from_user] of an action is the
    author of its source message. *)
Definition author_name (m : Message) : string :=
  match m_author m with Some n => n | None => "" end.

(** Modelled from the spec: [CtbAction.do] is not among the sources.
    Sections 4.2 [create] and 4.3 [execute]: the action is recorded under
    the id of its source message, in the state the executor leaves it in,
    together with the executor's balance change. *)
Definition do (self : CointipBot) (a : CtbAction) : M unit :=
  upstream ;;
  modify (fun w =>
    let '(st, b) := executor self a (balances w) in
    let row := {| a_type := p_type (act a); a_state := st;
                  a_created_utc := clock w; a_msg_id := m_id (msg a);
                  a_from_user := author_name (msg a);
                  a_coinval := p_coinval (act a) |} in
    emit (EvDo (p_type (act a)) (m_id (msg a)))
         (with_balances b (with_t_action (t_action w ++ [row]) w))).

(** Modelled from the spec: section 3, every state but [pending] is
    terminal. *)
Definition is_terminal (state : string) : bool := negb (String.eqb state "pending").

(** Modelled from the spec: section 4.2, [transition(action_id,
    new_state)]: one update; transitioning an action that is already
    terminal fails. *)
Definition transition (msg_id new_state : string) : M unit :=
  rows <- gets t_action ;;
  if existsb (fun a => String.eqb (a_msg_id a) msg_id && is_terminal (a_state a)) rows
  then raise (Exception "InvalidStateTransition")
  else modify (fun w =>
         with_t_action
           (map (fun a => if String.eqb (a_msg_id a) msg_id
                          then set_state new_state a else a) (t_action w)) w).

(** Modelled from the spec: [CtbAction.expire] is not among the sources.
    Section 4.3: the pending tip goes to [expired]; balances are left
    alone. *)
Definition expire (a : Action) : M unit :=
  upstream ;;
  transition (a_msg_id a) "expired" ;;
  modify (emit (EvExpire (a_msg_id a))).

End ctb_action.

(* ================================================================== *)
(** ** [cointipbot.py] *)

Module cointipbot.
Section Bot.

Variable self : CointipBot.

(** Reading a local variable: [UnboundLocalError] when the function has
    not assigned it yet. *)
Definition load_local {A} (name : string) (v : option A) : M A :=
  match v with
  | Some x => ret x
  | None => raise (UnboundLocalError name)
  end.

(** [for x in l:] with an accumulator carried through the body. *)
Fixpoint for_acc {A B} (l : list A) (acc : B) (body : B -> A -> M B) : M B :=
  match l with
  | [] => ret acc
  | x :: xs => acc' <- body acc x ;; for_acc xs acc' body
  end.

(** [float(self.coin.conn.getbalance())]. *)
Definition coin_getbalance : M float := upstream ;; gets coin_balance.

(** [self.db.execute("SELECT username FROM t_users ORDER BY username")]. *)
Definition select_usernames : M (list string) := upstream ;; gets t_users.

(** [self_checks], lines 137-177.  [user] is a local of the function
    (line 167 assigns it), so line 148 reads a local that is not yet
    bound. *)
Definition self_checks : M bool :=
  let user : option ctb_user.CtbUser := None in
  let b := ctb_user.new self (lower (reddit_auth_user (conf self))) in
  registered <- ctb_user.is_registered b ;;
  (if negb registered then ctb_user.register b else ret tt) ;;
  user148 <- load_local "user" user ;;
  ctb_balance <- ctb_user.get_balance user148 "givetip" ;;
  actions <- ctb_action.get_actions "givetip" "pending" None ;;
  let pending_tips :=
    fold_left (fun acc action => (acc + a_coinval action)%float) actions 0%float in
  if ((ctb_balance - pending_tips) <? - 0.000001)%float
  then raise (Exception "self_checks(): CointipBot's balance (%s) < total pending tips (%s)")
  else
    balance <- coin_getbalance ;;
    if (balance <? 0)%float
    then raise (Exception "self_checks(): negative balance")
    else
      usernames <- select_usernames ;;
      for_each usernames (fun username =>
        let user := ctb_user.new self username in
        registered <- ctb_user.is_registered user ;;
        if negb registered
        then raise (Exception "self_checks(): user is_registered() failed")
        else
          bal <- ctb_user.get_balance user "givetip" ;;
          if (bal <? 0)%float
          then raise (Exception "self_checks(): user balance is negative")
          else ret tt) ;;
      ret true.

(** [expire_pending_tips], lines 179-200.  [time.mktime(time.gmtime())] is
    the world's clock. *)
Definition expire_pending_tips : M bool :=
  let seconds := seconds_of (misc_times_expire_pending_hours (conf self)) in
  now <- gets clock ;;
  let created_before := now - seconds in
  actions <- ctb_action.get_actions "givetip" "pending" (Some created_before) ;;
  counter <- for_acc actions 0 (fun counter a =>
               ctb_action.expire a ;; ret (counter + 1)) ;;
  ret (Z.ltb 0 counter).

(** Modelled from the spec: section 6, [fetch_unread(limit)], an ordered
    sequence of at most [limit] unread items; Reddit lists them newest
    first. *)
Definition get_unread (limit : nat) : M (list Message) :=
  modify (emit (EvGetUnread limit)) ;;
  gets (fun w => firstn limit (unread w)).

(** Modelled from the spec: section 6, [mark_read(message)]. *)
Definition mark_as_read (m : Message) : M unit :=
  modify (fun w =>
    emit (EvMarkRead (m_id m))
         (with_unread (filter (fun x => negb (String.eqb (m_id x) (m_id m)))
                              (unread w)) w)).

Definition what_of (m : Message) : string :=
  if m_was_comment m then "comment" else "message".

(** The body of the [for m in messages] loop, lines 221-310; each
    [continue] ends the branch it stands in. *)
Definition process_message (m : Message) : M unit :=
  match m_author m with
  | None =>
      log INFO "check_inbox(): ignoring msg with no author" ;;
      ctb_misc.praw_call (mark_as_read m)
  | Some author =>
      log INFO "check_inbox(): %s from %s" ;;
      dup <- ctb_action.check_action (m_id m) ;;
      if dup then
        log WARNING "check_inbox(): duplicate action detected (msg.id %s), ignoring" ;;
        ctb_misc.praw_call (mark_as_read m)
      else if String.eqb (lower author) (lower (reddit_auth_user (conf self))) then
        log DEBUG "check_inbox(): ignoring message from self" ;;
        ctb_misc.praw_call (mark_as_read m)
      else
        is_banned <-
          (if reddit_banned_users (conf self) then
             log DEBUG "check_inbox(): checking whether user '%s' is banned..." ;;
             ret (ctb_user.banned (ctb_user.new self author))
           else ret false) ;;
        if is_banned then
          log INFO "check_inbox(): ignoring banned user '%s'" ;;
          ctb_misc.praw_call (mark_as_read m)
        else
          let action :=
            if m_was_comment m then ctb_action.eval_comment m self
            else ctb_action.eval_message m self in
          match action with
          | Some a =>
              log INFO "check_inbox(): %s from %s (m.id %s)" ;;
              log DEBUG "check_inbox(): message body: <%s>" ;;
              ctb_action.do self a
          | None =>
              log INFO "check_inbox(): no match" ;;
              if reddit_messages_sorry (conf self)
                 && negb (str_in (m_subject m) ["post reply"; "comment reply"])
              then
                let user := ctb_user.new self author in
                log DEBUG "check_inbox(): %s" ;;
                ctb_user.tell user "What?" (what_of m)
                  (if negb (m_was_comment m) then Some (m_id m) else None)
              else ret tt
          end ;;
          ctb_misc.praw_call (mark_as_read m)
  end.

(** The [try] block of [check_inbox], lines 210-310. *)
Definition check_inbox_try : M unit :=
  messages <- ctb_misc.praw_call
                (get_unread (reddit_scan_batch_limit (conf self))) ;;
  let messages := rev messages in
  for_each messages process_message.

(** The tuple of the first [except] clause, line 312. *)
Definition is_transient (e : exn) : bool :=
  match e with
  | HTTPError | ConnectionError | Timeout | RateLimitExceeded | socket_timeout => true
  | _ => false
  end.

(** The two [except] clauses of [check_inbox], lines 312-317; the [raise]
    of the second one is commented out. *)
Definition check_inbox_handlers (e : exn) : option (M unit) :=
  if is_transient e then
    Some (log WARNING "check_inbox(): Reddit is down (%s), sleeping" ;;
          sleep (misc_times_sleep_seconds (conf self)))
  else if is_Exception e then
    Some (log EXCEPTION "check_inbox(): %s")
  else None.

(** [check_inbox], lines 202-326. *)
Definition check_inbox : M bool :=
  log DEBUG "check_inbox()" ;;
  try_except check_inbox_try check_inbox_handlers ;;
  log DEBUG "check_inbox() DONE" ;;
  ret true.

(** [notify], lines 328-352: one SMTP conversation. *)
Definition notify : M unit := upstream ;; modify (emit EvNotify).

(** [sys.exit(1)]. *)
Definition sys_exit {A} (code : Z) : M A := raise (SystemExit code).

(** The [try] block of the main loop, lines 418-431. *)
Definition main_try : M unit :=
  log DEBUG "main(): beginning main() iteration" ;;
  expire_pending_tips ;;
  check_inbox ;;
  log DEBUG "main(): sleeping for %s seconds..." ;;
  sleep (misc_times_sleep_seconds (conf self)).

(** The [except Exception] clause of the main loop, lines 433-440. *)
Definition main_handlers (e : exn) : option (M unit) :=
  if is_Exception e then
    Some (log ERROR "main(): exception: %s" ;;
          log ERROR "main(): traceback: %s" ;;
          (if misc_notify_enabled (conf self) then notify else ret tt) ;;
          sys_exit 1)
  else None.

(** One turn of [while True:]. *)
Definition main_iteration : M unit := try_except main_try main_handlers.

(** [main], lines 411-440: the loop leaves only by an exception; [inr tt]
    after [fuel] turns means that the bot is still running. *)
Fixpoint main (fuel : nat) : M unit :=
  match fuel with
  | O => ret tt
  | S n => main_iteration ;; main n
  end.

End Bot.
End cointipbot.

(* ================================================================== *)
(** ** [ctb/ctb_stats.py] *)

Module ctb_stats.

(** The Python values a database row can hold. *)
Inductive value :=
| VNone
| VInt (z : Z)
| VFloat (f : float)
| VStr (s : string).

(** A row maps column names to values; a result set is the column names
    and the rows. *)
Definition Row := list (string * value).

Record ResultSet := { keys : list string; rows : list Row }.

(** What the interpreter and the database supply: float and date
    formatting of the C library (the latter under the process's time
    zone), and the database engine that evaluates a configured statement
    with its parameters over the action table. *)
Record Runtime := {
  fmt_5g : float -> string;
  float_str : float -> string;
  localtime_ymd : Z -> string;
  localtime_ymd_float : float -> string;
  run_sql : string -> list Z -> list Action -> ResultSet
}.

(** Computations that only raise: the formatter touches no state. *)
Definition E (A : Type) : Type := (exn + A)%type.

Definition ebind {A B} (m : E A) (f : A -> E B) : E B :=
  match m with
  | inr a => f a
  | inl e => inl e
  end.

Definition lift {A} (m : E A) : M A := fun w => (m, w).

Definition nl : string := String "010"%char "".
Definition check_mark : string :=
  String "226"%char (String "156"%char (String "147"%char "")).

(** [not v] is [negb (truthy v)]. *)
Definition truthy (v : value) : bool :=
  match v with
  | VNone => false
  | VInt z => negb (Z.eqb z 0)
  | VFloat f => negb (PrimFloat.eqb f 0%float)
  | VStr s => negb (String.eqb s "")
  end.

(** [type(v) == float] and [isinstance(v, str)], with the payload. *)
Definition as_float (v : value) : option float :=
  match v with VFloat f => Some f | _ => None end.

Definition as_str (v : value) : option string :=
  match v with VStr s => Some s | _ => None end.

(** [v == "literal"]. *)
Definition eq_str (v : value) (s : string) : bool :=
  match v with VStr x => String.eqb x s | _ => false end.

Definition str_int (z : Z) : string := NilZero.string_of_int (Z.to_int z).

(** [m[k]]. *)
Fixpoint getitem (m : Row) (k : string) : E value :=
  match m with
  | [] => inl (KeyError k)
  | (k', v) :: r => if String.eqb k' k then inr v else getitem r k
  end.

(** [sep.join(l)]. *)
Fixpoint join (sep : string) (l : list string) : string :=
  match l with
  | [] => ""
  | [x] => x
  | x :: r => x ++ sep ++ join sep r
  end.

(** [sep.join(values)] on arbitrary values: every item must be a [str]. *)
Fixpoint strings_of (l : list value) : E (list string) :=
  match l with
  | [] => inr []
  | VStr s :: r => ebind (strings_of r) (fun t => inr (s :: t))
  | _ :: _ => inl (TypeError "sequence item: expected str instance")
  end.

Definition join_values (sep : string) (l : list value) : E string :=
  ebind (strings_of l) (fun t => inr (join sep t)).

(** [re.escape] (Python 3.7 and later): a backslash before each of the
    characters below. *)
Definition special_chars : list ascii :=
  list_ascii_of_string "()[]{}?*+-|^$\.&~# "
  ++ ["009"; "010"; "013"; "011"; "012"]%char.

Fixpoint re_escape (s : string) : string :=
  match s with
  | EmptyString => EmptyString
  | String c r =>
      if existsb (Ascii.eqb c) special_chars
      then String "\"%char (String c (re_escape r))
      else String c (re_escape r)
  end.

Section Format.

Variable rt : Runtime.
Variable ctb : CointipBot.

(** [str(v)] and ["%s" % v]. *)
Definition str (v : value) : string :=
  match v with
  | VNone => "None"
  | VInt z => str_int z
  | VFloat f => float_str rt f
  | VStr s => s
  end.

(** [format_value], lines 231-302.  The result is a Python value: a
    [str] on most paths, the stored value itself on the [state] path, and
    [None] where the function ends without a [return]. *)
Definition format_value (m : Row) (k : string) (username : string)
           (compact : bool) : E value :=
  ebind (getitem m k) (fun v =>
  if negb (truthy v) then inr (VStr "-")
  else
  match as_float v, Z.gtb (find k "coin") (-1) with
  | Some f, true =>
      inr (VStr (coin_symbol (conf ctb) ++ "&nbsp;" ++ fmt_5g rt f))
  | _, _ =>
  match Z.gtb (find k "user") (-1), as_str v with
  | true, Some s =>
      if compact then
        inr (VStr (if String.eqb (lower s) (lower username)
                   then "**/u/" ++ s ++ "**"
                   else "/u/" ++ s))
      else
        let un := if String.eqb (lower s) (lower username)
                  then "**" ++ s ++ "**" else s in
        let toreturn := "[" ++ un ++ "](/u/" ++ re_escape s ++ ")" in
        let toreturn :=
          if negb (String.eqb (lower s) (lower username))
          then toreturn ++ "^[[stats]](/r/"
                 ++ reddit_stats_subreddit (conf ctb) ++ "/wiki/"
                 ++ reddit_stats_page (conf ctb) ++ "_" ++ s ++ ")"
          else toreturn in
        inr (VStr toreturn)
  | _, _ =>
  if Z.gtb (find k "addr") (-1) then
    match as_str v with
    | Some s =>
        let displayaddr := take 6 s ++ "..." ++ last 5 s in
        inr (VStr ("[" ++ displayaddr ++ "]("
                    ++ coin_explorer_address (conf ctb) ++ s ++ ")"))
    | None => inl (TypeError "object is not subscriptable")
    end
  else if Z.gtb (find k "state") (-1) then
    if eq_str v "completed" then inr (VStr check_mark) else inr v
  else if Z.gtb (find k "type") (-1) then
    if eq_str v "givetip" then inr (VStr "tip")
    else if compact then
      if eq_str v "withdraw" then inr (VStr "w") else inr VNone
    else inr VNone
  else if Z.gtb (find k "subreddit") (-1) then
    inr (VStr ("/r/" ++ str v))
  else if Z.gtb (find k "link") (-1) then
    inr (VStr ("[link](" ++ str v ++ ")"))
  else if Z.gtb (find k "utc") (-1) then
    match v with
    | VInt z => inr (VStr (localtime_ymd rt z))
    | VFloat f => inr (VStr (localtime_ymd_float rt f))
    | _ => inl (TypeError "an integer is required")
    end
  else inr (VStr (str v))
  end end).

(** The inner loop of [update_tips], lines 111-113: one formatted value
    per column, with [username=""] and [compact] left at its default. *)
Fixpoint format_row (t : Row) (ks : list string) : E (list value) :=
  match ks with
  | [] => inr []
  | k :: r =>
      ebind (format_value t k "" false) (fun v =>
      ebind (format_row t r) (fun vs => inr (v :: vs)))
  end.

(** The outer loop of [update_tips], lines 110-114. *)
Fixpoint build_table (tip_list : string) (ks : list string) (ts : list Row)
  : E string :=
  match ts with
  | [] => inr tip_list
  | t :: r =>
      ebind (format_row t ks) (fun values =>
      ebind (join_values "|" values) (fun line =>
      build_table (tip_list ++ line ++ nl) ks r))
  end.

(** [ctb.db.execute(sql, params)]. *)
Definition db_execute (sql : string) (params : list Z) : M ResultSet :=
  upstream ;; gets (fun w => run_sql rt sql params (t_action w)).

(** [wiki_page.edit(content=..., reason=...)]. *)
Definition wiki_edit (page content : string) : M unit :=
  modify (emit (EvWikiEdit page content)).

(** [update_tips], lines 93-133. *)
Definition update_tips : M bool :=
  let tip_list := "### All Completed Tips" ++ nl ++ nl in
  db_execute (db_sql_tips_sql_set (conf ctb)) [] ;;
  tips <- db_execute (db_sql_tips_sql_list (conf ctb))
                     [db_sql_tips_limit (conf ctb)] ;;
  let tip_list := tip_list ++ join "|" (keys tips) ++ nl in
  let tip_list :=
    tip_list ++ join "|" (repeat ":---" (List.length (keys tips))) ++ nl in
  tip_list <- lift (build_table tip_list (keys tips) (rows tips)) ;;
  log DEBUG "update_tips(): updating subreddit '%s', page '%s'" ;;
  ctb_misc.praw_call
    (wiki_edit (reddit_stats_page_tips (conf ctb)) tip_list) ;;
  ret true.

End Format.
End ctb_stats.

(* ================================================================== *)
(** ** Concrete bots, inboxes and ledgers used in the examples *)

Module Sample.

Definition conf0 : Conf :=
  {| reddit_auth_user := "NyanTip";
     reddit_banned_users := true;
     reddit_scan_batch_limit := 2;
     reddit_messages_sorry := true;
     reddit_stats_subreddit := "nyantip";
     reddit_stats_page := "stats";
     reddit_stats_page_tips := "tips";
     misc_times_sleep_seconds := 60;
     misc_times_expire_pending_hours := whole_hours 48;
     misc_notify_enabled := true;
     coin_symbol := "NYAN";
     coin_explorer_address := "https://explorer.example/address/";
     db_sql_tips_sql_set := "SET @rank := 0";
     db_sql_tips_sql_list := "SELECT * FROM t_action LIMIT %s";
     db_sql_tips_limit := 100 |}.

(** The same configuration with the apology message switched off. *)
Definition conf_quiet : Conf :=
  {| reddit_auth_user := "NyanTip";
     reddit_banned_users := true;
     reddit_scan_batch_limit := 2;
     reddit_messages_sorry := false;
     reddit_stats_subreddit := "nyantip";
     reddit_stats_page := "stats";
     reddit_stats_page_tips := "tips";
     misc_times_sleep_seconds := 60;
     misc_times_expire_pending_hours := whole_hours 48;
     misc_notify_enabled := true;
     coin_symbol := "NYAN";
     coin_explorer_address := "https://explorer.example/address/";
     db_sql_tips_sql_set := "SET @rank := 0";
     db_sql_tips_sql_list := "SELECT * FROM t_action LIMIT %s";
     db_sql_tips_limit := 100 |}.

(** A body starting with [+tip] is a tip of 5 coins; [+register] in a
    private message registers; nothing else matches. *)
Definition parse_comment (m : Message) : option Parsed :=
  if String.prefix "+tip" (m_body m)
  then Some {| p_type := "givetip"; p_coinval := 5 |} else None.

Definition parse_message (m : Message) : option Parsed :=
  if String.eqb (m_body m) "+register"
  then Some {| p_type := "register"; p_coinval := 0 |} else None.

Definition mk_bot (c : Conf) : CointipBot :=
  {| conf := c;
     user_banned := fun n => String.eqb (lower n) "spammer";
     regex_comment := parse_comment;
     regex_message := parse_message;
     executor := fun _ b => ("completed", b) |}.

Definition bot0 : CointipBot := mk_bot conf0.
Definition bot_quiet : CointipBot := mk_bot conf_quiet.

Definition hello : Message :=
  {| m_id := "t1_a"; m_author := Some "alice"; m_was_comment := false;
     m_subject := "hi"; m_body := "hello bot" |}.

Definition tip : Message :=
  {| m_id := "t1_b"; m_author := Some "bob"; m_was_comment := true;
     m_subject := "username mention"; m_body := "+tip carol 5" |}.

Definition from_self : Message :=
  {| m_id := "t1_c"; m_author := Some "nyantip"; m_was_comment := true;
     m_subject := "comment reply"; m_body := "+tip dave 5" |}.

Definition old_tip : Action :=
  {| a_type := "givetip"; a_state := "pending"; a_created_utc := 1000;
     a_msg_id := "t1_x"; a_from_user := "alice"; a_coinval := 5 |}.

Definition fresh_tip : Action :=
  {| a_type := "givetip"; a_state := "pending"; a_created_utc := 999000;
     a_msg_id := "t1_y"; a_from_user := "bob"; a_coinval := 2 |}.

Definition done_tip : Action :=
  {| a_type := "givetip"; a_state := "completed"; a_created_utc := 500;
     a_msg_id := "t1_z"; a_from_user := "bob"; a_coinval := 1 |}.

(** [expire_pending_hours: 1.13].  The product of the doubles 1.13 and
    3600 is 4067.9999999999995, so line 185 gives 4067 seconds where the
    product of the decimals is 4068. *)
Definition hours_1_13 : Hours :=
  {| hours_value := Py.Float 1.13; hours_int := I |}.

(** Two pending tips around that threshold when the clock shows
    1000000: created 4068 and 4067 seconds before. *)
Definition tip_4068 : Action :=
  {| a_type := "givetip"; a_state := "pending"; a_created_utc := 995932;
     a_msg_id := "t1_p"; a_from_user := "alice"; a_coinval := 3 |}.

Definition tip_4067 : Action :=
  {| a_type := "givetip"; a_state := "pending"; a_created_utc := 995933;
     a_msg_id := "t1_q"; a_from_user := "bob"; a_coinval := 4 |}.

(** [conf0] with the hours given as that float. *)
Definition conf_float : Conf :=
  {| reddit_auth_user := "NyanTip";
     reddit_banned_users := true;
     reddit_scan_batch_limit := 2;
     reddit_messages_sorry := true;
     reddit_stats_subreddit := "nyantip";
     reddit_stats_page := "stats";
     reddit_stats_page_tips := "tips";
     misc_times_sleep_seconds := 60;
     misc_times_expire_pending_hours := hours_1_13;
     misc_notify_enabled := true;
     coin_symbol := "NYAN";
     coin_explorer_address := "https://explorer.example/address/";
     db_sql_tips_sql_set := "SET @rank := 0";
     db_sql_tips_sql_list := "SELECT * FROM t_action LIMIT %s";
     db_sql_tips_limit := 100 |}.

Definition bot_float : CointipBot := mk_bot conf_float.

Definition world (inbox : list Message) (ledger : list Action)
           (script : list (option exn)) : World :=
  {| unread := inbox; t_action := ledger; t_users := ["nyantip"; "alice"; "bob"];
     balances := [("nyantip", 10%float); ("alice", 7%float)];
     coin_balance := 17%float; clock := 1000000; trace := [];
     faults := script |}.

(** A runtime whose formatting functions are constants and whose database
    lists the action table with four columns. *)
Definition row_of (a : Action) : ctb_stats.Row :=
  [("type", ctb_stats.VStr (a_type a));
   ("state", ctb_stats.VStr (a_state a));
   ("from_user", ctb_stats.VStr (a_from_user a));
   ("created_utc", ctb_stats.VInt (a_created_utc a))].

Definition rt0 : ctb_stats.Runtime :=
  {| ctb_stats.fmt_5g := fun _ => "5";
     ctb_stats.float_str := fun _ => "5.0";
     ctb_stats.localtime_ymd := fun _ => "1970-01-12";
     ctb_stats.localtime_ymd_float := fun _ => "1970-01-12";
     ctb_stats.run_sql := fun _ _ l =>
       {| ctb_stats.keys := ["type"; "state"; "from_user"; "created_utc"];
          ctb_stats.rows := map row_of l |} |}.

End Sample.

(* ================================================================== *)
(** ** Sentences of the specification, stated over the model *)

Module Stated.
Import cointipbot.

(** The world in which the expiry sweep starts, and the one in which the
    [try] block of [check_inbox] starts. *)
Definition begun (w : World) : World :=
  emit (EvLog DEBUG "main(): beginning main() iteration") w.

Definition entered (w : World) : World := emit (EvLog DEBUG "check_inbox()") w.

(** The events of the tail of a turn once [check_inbox] has handled an
    exception. *)
Definition rest_of_turn (self : CointipBot) : list event :=
  [EvLog DEBUG "check_inbox() DONE";
   EvLog DEBUG "main(): sleeping for %s seconds...";
   EvSleep (misc_times_sleep_seconds (conf self))].

(** "All other unhandled exceptions move to Failed": a notification is
    sent and the process exits with a non-zero status. *)
Definition inbox_errors_are_fatal : Prop :=
  forall (self : CointipBot) (w w1 w2 : World) (b : bool) (e : exn),
    expire_pending_tips self (begun w) = (inr b, w1) ->
    check_inbox_try self (entered w1) = (inl e, w2) ->
    is_transient e = false ->
    exists code w3,
      main_iteration self w = (inl (SystemExit code), w3)
      /\ code <> 0 /\ In EvNotify (trace w3).

(** "Failures [of the expiry sweep] are logged and swallowed, loop
    continues": the turn goes on to fetch the inbox and does not end the
    process. *)
Definition expiry_errors_are_swallowed : Prop :=
  forall (self : CointipBot) (w w1 : World) (e : exn),
    expire_pending_tips self (begun w) = (inl e, w1) ->
    exists w3,
      main_iteration self w = (inr tt, w3)
      /\ In (EvGetUnread (reddit_scan_batch_limit (conf self))) (trace w3).

(** The next call that leaves the process does not fail. *)
Definition next_call_ok (w : World) : bool :=
  match faults w with
  | Some _ :: _ => false
  | _ => true
  end.

(** What [check_inbox] evaluates a message to, lines 268-274. *)
Definition parsed (self : CointipBot) (m : Message) : option CtbAction :=
  if m_was_comment m then ctb_action.eval_comment m self
  else ctb_action.eval_message m self.

Definition has_action (msg_id : string) (w : World) : bool :=
  existsb (fun a => String.eqb (a_msg_id a) msg_id) (t_action w).

Definition from_self (self : CointipBot) (author : string) : bool :=
  String.eqb (lower author) (lower (reddit_auth_user (conf self))).

Definition from_banned (self : CointipBot) (author : string) : bool :=
  reddit_banned_users (conf self) && user_banned self author.

(** The three reasons for which an authored message is passed over. *)
Definition skipped (self : CointipBot) (m : Message) (author : string)
           (w : World) : bool :=
  has_action (m_id m) w || from_self self author || from_banned self author.

(** The same for any message: one without author can only be a
    duplicate. *)
Definition passed_over (self : CointipBot) (m : Message) (w : World) : bool :=
  match m_author m with
  | Some author => skipped self m author w
  | None => has_action (m_id m) w
  end.

Definition actions_for (msg_id : string) (l : list Action) : nat :=
  List.length (filter (fun a => String.eqb (a_msg_id a) msg_id) l).

Definition is_log (ev : event) : bool :=
  match ev with EvLog _ _ => true | _ => false end.

Definition is_mark_read (ev : event) : bool :=
  match ev with EvMarkRead _ => true | _ => false end.

(** "Skip-with-mark-read if duplicate, self-authored, or banned-author":
    nothing but log lines and the mark-as-read happen, and ledger and
    balances stay as they are. *)
Definition skip_leaves_ledger : Prop :=
  forall (self : CointipBot) (m : Message) (w : World),
    faults w = [] ->
    passed_over self m w = true ->
    exists evs w',
      process_message self m w = (inr tt, w')
      /\ trace w' = (trace w ++ evs ++ [EvMarkRead (m_id m)])%list
      /\ forallb is_log evs = true
      /\ t_action w' = t_action w
      /\ balances w' = balances w.

(** "Delivering the same message id twice to the loop produces exactly
    one Action." *)
Definition redelivery_yields_one_action : Prop :=
  skip_leaves_ledger
  /\ forall (self : CointipBot) (m : Message) (w : World),
       faults w = [] ->
       has_action (m_id m) w = false ->
       let w1 := snd (process_message self m w) in
       let w2 := snd (process_message self m w1) in
       actions_for (m_id m) (t_action w2) = 1%nat.

(** The message gets as far as [action.do()]. *)
Definition reaches_executor (self : CointipBot) (m : Message) : bool :=
  match m_author m with
  | None => false
  | Some author =>
      negb (from_self self author) && negb (from_banned self author)
      && match parsed self m with Some _ => true | None => false end
  end.

Definition is_reply (m : Message) : bool :=
  str_in (m_subject m) ["post reply"; "comment reply"].

(** The apology sent for a message that matched nothing. *)
Definition apology (m : Message) (author : string) : event :=
  EvTell author "What?" (what_of m)
         (if negb (m_was_comment m) then Some (m_id m) else None).

(** "If none match ... caller sends a didn't-understand reply unless the
    message is itself a reply to the bot's own post/comment", and the
    message is marked read either way. *)
Definition unmatched_is_answered : Prop :=
  forall (self : CointipBot) (m : Message) (author : string) (w : World),
    m_author m = Some author ->
    faults w = [] ->
    skipped self m author w = false ->
    parsed self m = None ->
    exists w',
      process_message self m w = (inr tt, w')
      /\ In (EvMarkRead (m_id m)) (trace w')
      /\ (is_reply m = false -> In (apology m author) (trace w')).

(** The log line of the banned-user check, present when the check runs. *)
Definition banned_check_log (self : CointipBot) : list event :=
  if reddit_banned_users (conf self)
  then [EvLog DEBUG "check_inbox(): checking whether user '%s' is banned..."]
  else [].

(** The row that [do] records for an action executed in world [w]. *)
Definition recorded (self : CointipBot) (a : CtbAction) (w : World) : Action :=
  {| a_type := p_type (act a);
     a_state := fst (executor self a (balances w));
     a_created_utc := clock w; a_msg_id := m_id (msg a);
     a_from_user := ctb_action.author_name (msg a);
     a_coinval := p_coinval (act a) |}.

(** A stretch of the trace in which message [m] is dealt with: whatever
    is done for it, closed by its mark-as-read, with no other mark-as-read
    in between. *)
Definition handles (m : Message) (seg : list event) : Prop :=
  exists pre,
    seg = (pre ++ [EvMarkRead (m_id m)])%list
    /\ forallb (fun ev => negb (is_mark_read ev)) pre = true.

(** The tips the sweep is after in world [w]: [givetip] rows in state
    [pending] created strictly before the clock minus the seconds that
    line 185 computes from the configured hours. *)
Definition due (self : CointipBot) (w : World) (a : Action) : bool :=
  ctb_action.selected "givetip" "pending"
    (Some (clock w
           - seconds_of (misc_times_expire_pending_hours (conf self)))) a.

Definition expire_if (p : Action -> bool) (a : Action) : Action :=
  if p a then set_state "expired" a else a.

(** The events a run appended to the trace. *)
Definition new_events (before after : World) : list event :=
  skipn (List.length (trace before)) (trace after).

Definition has_id (msg_id : string) (a : Action) : bool :=
  String.eqb (a_msg_id a) msg_id.

Definition id_among (ids : list string) (a : Action) : bool :=
  existsb (String.eqb (a_msg_id a)) ids.

(** What a run of [update_tips] returns and appends to the trace when no
    call fails, as a function of the action table. *)
Definition tips_outcome (rt : ctb_stats.Runtime) (ctb : CointipBot)
           (ledger : list Action) : (exn + bool) * list event :=
  let tips := ctb_stats.run_sql rt (db_sql_tips_sql_list (conf ctb))
                                [db_sql_tips_limit (conf ctb)] ledger in
  let tip_list := "### All Completed Tips" ++ ctb_stats.nl ++ ctb_stats.nl in
  let tip_list :=
    tip_list ++ ctb_stats.join "|" (ctb_stats.keys tips) ++ ctb_stats.nl in
  let tip_list :=
    tip_list
    ++ ctb_stats.join "|" (repeat ":---" (List.length (ctb_stats.keys tips)))
    ++ ctb_stats.nl in
  match ctb_stats.build_table rt ctb tip_list (ctb_stats.keys tips)
                              (ctb_stats.rows tips) with
  | inr tip_list =>
      (inr true,
       [EvLog DEBUG "update_tips(): updating subreddit '%s', page '%s'";
        EvWikiEdit (reddit_stats_page_tips (conf ctb)) tip_list])
  | inl e => (inl e, [])
  end.

End Stated.

(* ================================================================== *)
(** ** Triples over the monad *)

Module Triples.

(** [hoare P c Q X]: started in a world satisfying [P], [c] either
    returns [a] in a world satisfying [Q a] or raises [e] in a world
    satisfying [X e]. *)
Definition hoare {A : Type} (P : World -> Prop) (c : M A)
           (Q : A -> World -> Prop) (X : exn -> World -> Prop) : Prop :=
  forall w, P w ->
    match c w with
    | (inr a, w') => Q a w'
    | (inl e, w') => X e w'
    end.

(** [invariant I E c]: [c] keeps [I], whether it returns or raises, and
    raises only exceptions satisfying [E]. *)
Definition invariant {A : Type} (I : World -> Prop) (E : exn -> Prop)
           (c : M A) : Prop :=
  hoare I c (fun _ => I) (fun e w => I w /\ E e).

(** The script of [w'] is what is left of the script of [w]. *)
Definition later (w w' : World) : Prop :=
  exists used, faults w = (used ++ faults w')%list.

(** [e] is one of the exceptions the environment of [w] has in store. *)
Definition from_env (w : World) (e : exn) : Prop := In (Some e) (faults w).

End Triples.

(* ================================================================== *)
(** ** Vocabulary for the behaviour of the loop *)

Module Behaviour.
Import cointipbot Stated.

(** The message ids of the ledger, in table order. *)
Definition ids (w : World) : list string := map a_msg_id (t_action w).

(** What handling one message may do to the ledger: nothing, or one new
    row for the message, whose id had no row before. *)
Definition grows_by (msg_id : string) (L L' : list Action) : Prop :=
  L' = L
  \/ (existsb (has_id msg_id) L = false
      /\ exists row, a_msg_id row = msg_id /\ L' = (L ++ [row])%list).

(** The ledger of [w] is [L0] followed by at most [n] rows, and message
    ids are unique in it if they were in [L0]. *)
Definition grown (L0 : list Action) (n : nat) (w : World) : Prop :=
  exists added,
    t_action w = (L0 ++ added)%list
    /\ (List.length added <= n)%nat
    /\ (NoDup (map a_msg_id L0) -> NoDup (map a_msg_id (L0 ++ added))).

(** The ids of the ledger of [w] are [I0] followed by further ids, and
    are unique if those of [I0] were. *)
Definition ids_grown (I0 : list string) (w : World) : Prop :=
  exists more,
    ids w = (I0 ++ more)%list /\ (NoDup I0 -> NoDup (I0 ++ more)).

(** Row [a'] is row [a], or row [a] set to [expired], the latter only
    for rows satisfying [p]. *)
Definition kept_or_expired (p : Action -> bool) (a a' : Action) : Prop :=
  a' = a \/ (p a = true /\ a' = set_state "expired" a).

(** What marking [m] read leaves of an inbox. *)
Definition without (m : Message) (inbox : list Message) : list Message :=
  filter (fun x => negb (String.eqb (m_id x) (m_id m))) inbox.

(** The messages a poll fetches, in the order Reddit lists them. *)
Definition fetched (self : CointipBot) (w : World) : list Message :=
  firstn (reddit_scan_batch_limit (conf self)) (unread w).

Definition was_fetched (self : CointipBot) (w : World) (x : Message) : bool :=
  existsb (fun m => String.eqb (m_id x) (m_id m)) (fetched self w).

(** What the [except Exception] clause of [main] logs before it
    notifies, lines 434-435. *)
Definition handler_logs : list event :=
  [EvLog ERROR "main(): exception: %s"; EvLog ERROR "main(): traceback: %s"].

(** [main] has gone through its handler to [sys.exit(1)]: the last
    things it did are the two logs and, when notifications are enabled,
    the notification. *)
Definition exited_by_handler (self : CointipBot) (w' : World) : Prop :=
  exists tr,
    trace w'
    = (tr ++ handler_logs
          ++ (if misc_notify_enabled (conf self) then [EvNotify] else []))%list.

(** Exception [e] was raised by the notification of [main]'s handler:
    notifications are enabled, the handler has logged and nothing has
    happened since, and [e] is the entry of the script of [w0] that was
    used up last. *)
Definition raised_by_notify (self : CointipBot) (w0 w' : World) (e : exn)
  : Prop :=
  misc_notify_enabled (conf self) = true
  /\ (exists tr, trace w' = (tr ++ handler_logs)%list)
  /\ (exists used, faults w0 = (used ++ Some e :: faults w')%list).

(** The ways [main], started in [w0], can end in [w'] by [e]. *)
Definition main_ends (self : CointipBot) (w0 w' : World) (e : exn) : Prop :=
  (e = SystemExit 1 /\ exited_by_handler self w')
  \/ (is_Exception e = false /\ Triples.from_env w0 e)
  \/ (is_Exception e = true /\ raised_by_notify self w0 w' e).

End Behaviour.

(* ================================================================== *)
(** ** [ctb/ctb_stats.py]: the statistics page and the user pages *)

Module ctb_stats_pages.
Import ctb_stats.

(** One entry of [conf["db"]["sql"]["globalstats"]]. *)
Record GlobalStat := {
  gs_query : string;
  gs_name : string;
  gs_desc : string;
  gs_type : string
}.

(** The configuration keys read by [update_stats], [update_user_stats]
    and [update_all_user_stats] beside those of [Conf]; the dictionary of
    global statistics is an association list. *)
Record StatsConf := {
  db_sql_globalstats : list (string * GlobalStat);
  db_sql_userstats_users : string;
  db_sql_userstats_coins : string;
  db_sql_userstats_total_tipped_coin : string;
  db_sql_userstats_total_received_coin : string;
  db_sql_userstats_history : string
}.

(** What the user pages need beside [Runtime]: the database engine for
    statements with parameters of any kind, over the action and user
    tables, and the ["%.6f"] formatting of a float. *)
Record PagesRuntime := {
  run_query : string -> list value -> list Action -> list string -> ResultSet;
  fmt_6f : float -> string
}.

(** Exception classes of which the modelled code only needs to know that
    they are [Exception]s are carried by [Exception], the class name in
    the message. *)
Definition IndexError : exn := Exception "IndexError: list index out of range".
Definition AttributeError : exn :=
  Exception "AttributeError: object has no attribute 'lower'".

(** [sorted(d)] on the keys of a dictionary: insertion in the order of
    [str] comparison. *)
Fixpoint insert (x : string) (l : list string) : list string :=
  match l with
  | [] => [x]
  | y :: r => if String.leb x y then x :: l else y :: insert x r
  end.

Definition sorted (l : list string) : list string := fold_right insert [] l.

(** [d[s]] on the dictionary of global statistics. *)
Fixpoint lookup (s : string) (d : list (string * GlobalStat)) : E GlobalStat :=
  match d with
  | [] => inl (KeyError s)
  | (k, g) :: r => if String.eqb k s then inr g else lookup s r
  end.

(** [mysqlexec.rowcount] of a query. *)
Definition rowcount (r : ResultSet) : Z := Z.of_nat (List.length (rows r)).

(** [mysqlexec.fetchone()]: the first row, [None] when there is none. *)
Definition fetchone (r : ResultSet) : option Row := hd_error (rows r).

(** [row[k]] on the result of [fetchone()]. *)
Definition getitem_opt (m : option Row) (k : string) : E value :=
  match m with
  | Some r => getitem r k
  | None => inl (TypeError "'NoneType' object is not subscriptable")
  end.

(** [list(mysqlexec.keys())[0]]. *)
Definition first_key (r : ResultSet) : E string :=
  match keys r with
  | k :: _ => inr k
  | [] => inl IndexError
  end.

(** [v.lower()]. *)
Definition lower_of (v : value) : E string :=
  match v with
  | VStr s => inr (lower s)
  | _ => inl AttributeError
  end.

(** The outcome of [update_stats]: [False], or what the wiki edit
    returned. *)
Inductive stats_result := Returned_False | Returned_edit.

Section Pages.

Variable rt : Runtime.
Variable prt : PagesRuntime.
Variable ctb : CointipBot.
Variable sc : StatsConf.

(** One turn of the loop of [update_stats], lines 37-73, from the text
    built so far; [None] stands for the [return False] of line 71, and a
    [continue] gives the text as it is at that point. *)
Definition stats_section (stats : string) (s : string) : M (option string) :=
  log DEBUG "update_stats(): getting stats for '%s'" ;;
  g <- lift (lookup s (db_sql_globalstats sc)) ;;
  let sql := gs_query g in
  let stats := stats ++ nl ++ nl ++ "### " ++ gs_name g ++ nl ++ nl in
  let stats := stats ++ gs_desc g ++ nl ++ nl in
  mysqlexec <- db_execute rt sql [] ;;
  if Z.leb (rowcount mysqlexec) 0 then
    log WARNING "update_stats(): query <%s> returned nothing" ;;
    ret (Some stats)
  else if String.eqb (gs_type g) "line" then
    let m := fetchone mysqlexec in
    k <- lift (first_key mysqlexec) ;;
    value <- lift (match m with
                   | Some r => format_value rt ctb r k "" false
                   | None => inl (TypeError "'NoneType' object is not subscriptable")
                   end) ;;
    let stats := stats ++ k ++ " = **" ++ str rt value ++ "**" ++ nl in
    ret (Some (stats ++ nl))
  else if String.eqb (gs_type g) "table" then
    let stats := stats ++ join "|" (keys mysqlexec) ++ nl in
    let stats :=
      stats ++ join "|" (repeat ":---" (List.length (keys mysqlexec))) ++ nl in
    stats <- lift (build_table rt ctb stats (keys mysqlexec) (rows mysqlexec)) ;;
    ret (Some (stats ++ nl))
  else
    log ERROR "update_stats(): don't know what to do with type '%s'" ;;
    ret None.

(** [for s in sorted(...)], left by [return False]. *)
Fixpoint stats_loop (names : list string) (stats : string) : M (option string) :=
  match names with
  | [] => ret (Some stats)
  | s :: r =>
      o <- stats_section stats s ;;
      match o with
      | Some stats' => stats_loop r stats'
      | None => ret None
      end
  end.

(** [update_stats], lines 30-90. *)
Definition update_stats : M stats_result :=
  o <- stats_loop (sorted (map fst (db_sql_globalstats sc))) "" ;;
  match o with
  | None => ret Returned_False
  | Some stats =>
      log DEBUG "update_stats(): updating subreddit '%s', page '%s'" ;;
      ctb_misc.praw_call (wiki_edit (reddit_stats_page (conf ctb)) stats) ;;
      ret Returned_edit
  end.

(** [ctb.db.execute(sql, params)] for the user pages. *)
Definition db_query (sql : string) (params : list value) : M ResultSet :=
  upstream ;;
  gets (fun w => run_query prt sql params (t_action w) (t_users w)).

(** [[c["coin"] for c in coins_q]], lines 153-155. *)
Fixpoint coin_names (rs : list Row) : E (list value) :=
  match rs with
  | [] => inr []
  | c :: r =>
      ebind (getitem c "coin") (fun v =>
      ebind (coin_names r) (fun vs => inr (v :: vs)))
  end.

(** ["%.6f" % v]. *)
Definition format_6f (v : value) : E string :=
  match v with
  | VFloat f => inr (fmt_6f prt f)
  | VInt z => inr (str_int z ++ ".000000")
  | _ => inl (TypeError "must be real number")
  end.

(** The loops over the coins, lines 164-174 and 180-190. *)
Fixpoint totals (sql : string) (username : value) (coins : list value)
         (user_stats : string) : M string :=
  match coins with
  | [] => ret user_stats
  | c :: r =>
      mysqlexec <- db_query sql [username; c] ;;
      let total := fetchone mysqlexec in
      v <- lift (getitem_opt total "total_coin") ;;
      user_stats <-
        (match v with
         | VNone => ret user_stats
         | _ =>
             amount <- lift (format_6f v) ;;
             ret (user_stats ++ "**" ++ str rt c ++ "**|"
                  ++ coin_symbol (conf ctb) ++ " " ++ amount ++ nl)
         end) ;;
      totals sql username r user_stats
  end.

(** The inner loop over the columns, lines 211-212. *)
Fixpoint format_cells (m : Row) (username : string) (ks : list string)
  : E (list value) :=
  match ks with
  | [] => inr []
  | k :: r =>
      ebind (format_value rt ctb m k username false) (fun v =>
      ebind (format_cells m username r) (fun vs => inr (v :: vs)))
  end.

(** The loop over the history, lines 204-213, with its two counters. *)
Fixpoint history_table (username : string) (ks : list string) (ms : list Row)
         (acc : string * Z * Z) : E (string * Z * Z) :=
  match ms with
  | [] => inr acc
  | m :: r =>
      let '(user_stats, num_tipped, num_received) := acc in
      ebind (getitem m "state") (fun state =>
      ebind
        (if eq_str state "completed" then
           ebind (getitem m "from_user") (fun from_user =>
           ebind (lower_of from_user) (fun f =>
           if String.eqb f (lower username)
           then inr (num_tipped + 1, num_received)
           else
             ebind (getitem m "to_user") (fun to_user =>
             ebind (lower_of to_user) (fun t =>
             if String.eqb t (lower username)
             then inr (num_tipped, num_received + 1)
             else inr (num_tipped, num_received)))))
         else inr (num_tipped, num_received))
        (fun counters =>
      ebind (format_cells m username ks) (fun values =>
      ebind (join_values "|" values) (fun line =>
      history_table username ks r
        (user_stats ++ line ++ nl, fst counters, snd counters)))))
  end.

(** [update_user_stats], lines 146-228.  The page name is built by
    concatenation, so a user name that is not a [str] is a
    [TypeError] there. *)
Definition update_user_stats (username : value) : M bool :=
  coins_q <- db_query (db_sql_userstats_coins sc) [] ;;
  coins <- lift (coin_names (rows coins_q)) ;;
  let user_stats := "### Tipping Summary for /u/" ++ str rt username ++ nl ++ nl in
  name <- lift (match username with
                | VStr s => inr s
                | _ => inl (TypeError "can only concatenate str to str")
                end) ;;
  let page := reddit_stats_page (conf ctb) ++ "_" ++ name in
  let user_stats := user_stats ++ "#### Total Tipped (Coins)" ++ nl ++ nl in
  let user_stats := user_stats ++ "coin|total" ++ nl ++ ":---|---:" ++ nl in
  user_stats <- totals (db_sql_userstats_total_tipped_coin sc) username coins
                       user_stats ;;
  let user_stats := user_stats ++ nl in
  let user_stats := user_stats ++ "#### Total Received (Coins)" ++ nl ++ nl in
  let user_stats := user_stats ++ "coin|total" ++ nl ++ ":---|---:" ++ nl in
  user_stats <- totals (db_sql_userstats_total_received_coin sc) username coins
                       user_stats ;;
  let user_stats := user_stats ++ nl in
  let user_stats := user_stats ++ "#### History" ++ nl ++ nl in
  history <- db_query (db_sql_userstats_history sc) [username; username] ;;
  let user_stats := user_stats ++ join "|" (keys history) ++ nl in
  let user_stats :=
    user_stats ++ join "|" (repeat ":---" (List.length (keys history))) ++ nl in
  built <- lift (history_table name (keys history) (rows history)
                               (user_stats, 0, 0)) ;;
  let user_stats := fst (fst built) in
  log DEBUG "update_user_stats(): updating subreddit '%s', page '%s'" ;;
  ctb_misc.praw_call (wiki_edit page user_stats) ;;
  ret true.

(** [update_all_user_stats], lines 136-143. *)
Definition update_all_user_stats : M unit :=
  users <- db_query (db_sql_userstats_users sc) [] ;;
  for_each (rows users) (fun u =>
    username <- lift (getitem u "username") ;;
    update_user_stats username ;;
    ret tt).

End Pages.
End ctb_stats_pages.

(* ================================================================== *)
(** ** What the statistics pages leave behind *)

Module Published.
Import ctb_stats ctb_stats_pages.

(** The wiki pages submitted so far, in order. *)
Definition edited (tr : list event) : list string :=
  flat_map (fun e => match e with EvWikiEdit p _ => [p] | _ => [] end) tr.

(** Nothing but the trace and the script differs from [w0]. *)
Definition reads_only (w0 w : World) : Prop :=
  unread w = unread w0 /\ t_action w = t_action w0 /\ t_users w = t_users w0
  /\ balances w = balances w0 /\ coin_balance w = coin_balance w0
  /\ clock w = clock w0.

Definition pages_so_far (w0 : World) (P : list string) (w : World) : Prop :=
  reads_only w0 w /\ edited (trace w) = P.

(** The page of a user. *)
Definition user_page (ctb : CointipBot) (name : string) : string :=
  reddit_stats_page (conf ctb) ++ "_" ++ name.

(** The [username] column of each row, as [update_all_user_stats] reads
    it. *)
Definition usernames (rs : list Row) : list (E value) :=
  map (fun u => getitem u "username") rs.

Definition strs (names : list string) : list (E value) :=
  map (fun n => inr (VStr n)) names.
End Published.

(* ================================================================== *)
(** ** Further concrete inputs *)

Module SampleX.

(** Tips on either side of the threshold of [Sample.bot_float] and an
    old one: the database answers the query and the expiry of
    [Sample.tip_4068], and fails on the next call. *)
Definition half_swept_float : World :=
  Sample.world [] [Sample.tip_4067; Sample.tip_4068; Sample.old_tip;
                   Sample.done_tip]
               [None; None; Some ConnectionError].

(** The database fails in the sweep, and then the mail server fails in
    the notification. *)
Definition mail_down : World :=
  Sample.world [Sample.tip] []
               [Some (Exception "db is gone"); Some ConnectionError].

(** The configuration of [Sample.conf0] with a batch of one message. *)
Definition conf_one : Conf :=
  {| reddit_auth_user := "NyanTip";
     reddit_banned_users := true;
     reddit_scan_batch_limit := 1;
     reddit_messages_sorry := true;
     reddit_stats_subreddit := "nyantip";
     reddit_stats_page := "stats";
     reddit_stats_page_tips := "tips";
     misc_times_sleep_seconds := 60;
     misc_times_expire_pending_hours := whole_hours 48;
     misc_notify_enabled := true;
     coin_symbol := "NYAN";
     coin_explorer_address := "https://explorer.example/address/";
     db_sql_tips_sql_set := "SET @rank := 0";
     db_sql_tips_sql_list := "SELECT * FROM t_action LIMIT %s";
     db_sql_tips_limit := 100 |}.


Definition registration : Action :=
  {| a_type := "register"; a_state := "completed"; a_created_utc := 700;
     a_msg_id := "t1_r"; a_from_user := "carol"; a_coinval := 0 |}.


(** A statistics configuration with a section of a type the code does
    not know beside one it knows. *)
Definition total_section : ctb_stats_pages.GlobalStat :=
  {| ctb_stats_pages.gs_query := "SELECT type FROM t_action";
     ctb_stats_pages.gs_name := "Total";
     ctb_stats_pages.gs_desc := "All actions";
     ctb_stats_pages.gs_type := "line" |}.

Definition chart_section : ctb_stats_pages.GlobalStat :=
  {| ctb_stats_pages.gs_query := "SELECT * FROM t_action";
     ctb_stats_pages.gs_name := "Chart";
     ctb_stats_pages.gs_desc := "Tips over time";
     ctb_stats_pages.gs_type := "chart" |}.

Definition stats_conf : ctb_stats_pages.StatsConf :=
  {| ctb_stats_pages.db_sql_globalstats :=
       [("total", total_section); ("chart", chart_section)];
     ctb_stats_pages.db_sql_userstats_users := "SELECT username FROM t_users";
     ctb_stats_pages.db_sql_userstats_coins := "SELECT coin FROM t_action";
     ctb_stats_pages.db_sql_userstats_total_tipped_coin := "SELECT SUM(tipped)";
     ctb_stats_pages.db_sql_userstats_total_received_coin := "SELECT SUM(received)";
     ctb_stats_pages.db_sql_userstats_history := "SELECT history" |}.

Definition stats_world : World := Sample.world [] [Sample.done_tip] [].

End SampleX.

(* ================================================================== *)
(** ** The poll loop and its exception handlers *)

Import cointipbot Stated.
Local Open Scope py_scope.
Unset Implicit Arguments.

Ltac run_turn Hexp Hbody :=
  unfold main_iteration, try_except, main_try, check_inbox, try_except,
    check_inbox_handlers, bind, log, sleep, modify, ret;
  unfold begun, entered in Hexp, Hbody;
  rewrite Hexp; try rewrite Hbody.

(** C4.  A transient upstream error raised while the inbox is fetched or
    the batch is processed is handled inside [check_inbox]: the handler logs
    a warning and sleeps for the configured interval, the turn finishes
    normally (the loop goes on with its next turn), and neither the ledger
    nor the balances nor the users change from the state in which the error
    was raised. *)
Theorem transient_error_sleeps_and_continues
        (self : CointipBot) (w w1 w2 : World) (b : bool) (e : exn) :
  expire_pending_tips self (begun w) = (inr b, w1) ->
  check_inbox_try self (entered w1) = (inl e, w2) ->
  is_transient e = true ->
  exists w3,
    main_iteration self w = (inr tt, w3)
    /\ trace w3 =
       (trace w2
        ++ [EvLog WARNING "check_inbox(): Reddit is down (%s), sleeping";
            EvSleep (misc_times_sleep_seconds (conf self))]
        ++ rest_of_turn self)%list
    /\ t_action w3 = t_action w2
    /\ balances w3 = balances w2
    /\ t_users w3 = t_users w2
    /\ forall fuel, main self (S fuel) w = main self fuel w3.
Proof.
  intros Hexp Hbody Ht.
  eexists. split.
  - run_turn Hexp Hbody. rewrite Ht. reflexivity.
  - cbn [trace t_action balances t_users emit with_clock].
    repeat split.
    + unfold rest_of_turn. repeat rewrite <- app_assoc. reflexivity.
    + intros fuel. cbn [main]. unfold bind at 1.
      run_turn Hexp Hbody. rewrite Ht. reflexivity.
Qed.

Lemma transient_error_sleeps_and_continues_witness :
  exists w3,
    main_iteration Sample.bot0
      (Sample.world [Sample.tip] [] [None; Some ConnectionError]) = (inr tt, w3)
    /\ trace w3 =
       ([EvLog DEBUG "main(): beginning main() iteration";
         EvLog DEBUG "check_inbox()"]
        ++ [EvLog WARNING "check_inbox(): Reddit is down (%s), sleeping";
            EvSleep 60]
        ++ rest_of_turn Sample.bot0)%list
    /\ t_action w3 = []
    /\ balances w3 = [("nyantip", 10%float); ("alice", 7%float)]
    /\ t_users w3 = ["nyantip"; "alice"; "bob"]
    /\ forall fuel,
         main Sample.bot0 (S fuel)
           (Sample.world [Sample.tip] [] [None; Some ConnectionError])
         = main Sample.bot0 fuel w3.
Proof.
  pose (w := Sample.world [Sample.tip] [] [None; Some ConnectionError]).
  pose (w1 := snd (expire_pending_tips Sample.bot0 (begun w))).
  pose (w2 := snd (check_inbox_try Sample.bot0 (entered w1))).
  exact (@transient_error_sleeps_and_continues Sample.bot0 w w1 w2 false
           ConnectionError eq_refl eq_refl eq_refl).
Defined.

(** Whatever leaves [check_inbox] as an exception is not an [Exception]:
    both kinds that are are handled inside. *)
Lemma check_inbox_raises_no_Exception (self : CointipBot) (w w' : World) (e : exn) :
  check_inbox self w = (inl e, w') -> is_Exception e = false.
Proof.
  unfold check_inbox, try_except, check_inbox_handlers, bind, log, sleep, modify, ret.
  destruct (check_inbox_try self _) as [[e0|[]] w0]; [|discriminate].
  destruct (is_transient e0); [discriminate|].
  destruct (is_Exception e0) eqn:HE; [discriminate|].
  intros H. inversion H. subst. exact HE.
Qed.

(** C1, as the code has it.  An [Exception] that is not one of the
    transient kinds, raised while the inbox is fetched or the batch is
    processed, does not reach [main]: [check_inbox] logs it, gives up the
    rest of the batch and returns, the turn finishes with its sleep, no
    notification is sent in the turn and the loop goes on; ledger, balances
    and users stay as they were when the exception was raised. *)
Theorem inbox_exception_is_logged_and_swallowed
        (self : CointipBot) (w w1 w2 : World) (b : bool) (e : exn) :
  expire_pending_tips self (begun w) = (inr b, w1) ->
  check_inbox_try self (entered w1) = (inl e, w2) ->
  is_transient e = false ->
  is_Exception e = true ->
  exists w3,
    main_iteration self w = (inr tt, w3)
    /\ trace w3 =
       (trace w2 ++ [EvLog EXCEPTION "check_inbox(): %s"] ++ rest_of_turn self)%list
    /\ t_action w3 = t_action w2
    /\ balances w3 = balances w2
    /\ t_users w3 = t_users w2
    /\ forall fuel, main self (S fuel) w = main self fuel w3.
Proof.
  intros Hexp Hbody Ht HE.
  eexists. split.
  - run_turn Hexp Hbody. rewrite Ht, HE. reflexivity.
  - cbn [trace t_action balances t_users emit with_clock].
    repeat split.
    + unfold rest_of_turn. repeat rewrite <- app_assoc. reflexivity.
    + intros fuel. cbn [main]. unfold bind at 1.
      run_turn Hexp Hbody. rewrite Ht, HE. reflexivity.
Qed.

Lemma inbox_exception_is_logged_and_swallowed_witness :
  exists w3,
    main_iteration Sample.bot0
      (Sample.world [Sample.tip] [] [None; Some (Exception "boom")]) = (inr tt, w3)
    /\ trace w3 =
       ([EvLog DEBUG "main(): beginning main() iteration";
         EvLog DEBUG "check_inbox()"]
        ++ [EvLog EXCEPTION "check_inbox(): %s"] ++ rest_of_turn Sample.bot0)%list
    /\ t_action w3 = []
    /\ balances w3 = [("nyantip", 10%float); ("alice", 7%float)]
    /\ t_users w3 = ["nyantip"; "alice"; "bob"]
    /\ forall fuel,
         main Sample.bot0 (S fuel)
           (Sample.world [Sample.tip] [] [None; Some (Exception "boom")])
         = main Sample.bot0 fuel w3.
Proof.
  pose (w := Sample.world [Sample.tip] [] [None; Some (Exception "boom")]).
  pose (w1 := snd (expire_pending_tips Sample.bot0 (begun w))).
  pose (w2 := snd (check_inbox_try Sample.bot0 (entered w1))).
  exact (@inbox_exception_is_logged_and_swallowed Sample.bot0 w w1 w2 false
           (Exception "boom") eq_refl eq_refl eq_refl eq_refl).
Defined.

(** C1 as the specification words it fails: with notifications enabled, a
    plain [Exception] raised by the inbox fetch leaves the process running
    and sends nothing. *)
Lemma inbox_exception_is_not_fatal : ~ inbox_errors_are_fatal.
Proof.
  intros H.
  pose (w := Sample.world [Sample.tip] [] [None; Some (Exception "boom")]).
  pose (w1 := snd (expire_pending_tips Sample.bot0 (begun w))).
  pose (w2 := snd (check_inbox_try Sample.bot0 (entered w1))).
  destruct (H Sample.bot0 w w1 w2 false (Exception "boom") eq_refl eq_refl eq_refl)
    as (code & w3 & Hrun & _).
  vm_compute in Hrun. discriminate Hrun.
Qed.

(** C5, as the code has it.  An [Exception] raised by the expiry sweep
    reaches the handler of [main]: the inbox is not fetched in that turn,
    two error lines are logged, the operator is notified when notifications
    are enabled, and the turn ends with [SystemExit 1]; ledger and balances
    are those the sweep left.  (The notification is itself an SMTP
    conversation; the statement is for the case where it goes through.) *)
Theorem expiry_exception_ends_the_process
        (self : CointipBot) (w w1 : World) (e : exn) :
  expire_pending_tips self (begun w) = (inl e, w1) ->
  is_Exception e = true ->
  misc_notify_enabled (conf self) && negb (next_call_ok w1) = false ->
  exists w3,
    main_iteration self w = (inl (SystemExit 1), w3)
    /\ trace w3 =
       (trace w1
        ++ [EvLog ERROR "main(): exception: %s";
            EvLog ERROR "main(): traceback: %s"]
        ++ (if misc_notify_enabled (conf self) then [EvNotify] else []))%list
    /\ t_action w3 = t_action w1
    /\ balances w3 = balances w1.
Proof.
  intros Hexp HE Hn.
  unfold main_iteration, try_except, main_try, bind, log, modify.
  unfold begun in Hexp. rewrite Hexp.
  unfold main_handlers. rewrite HE.
  unfold bind, log, modify, notify, upstream, sys_exit, raise, ret.
  unfold next_call_ok in Hn.
  destruct (misc_notify_enabled (conf self)).
  - destruct w1 as [u ta tu bl cb c tr f].
    cbn [faults] in Hn.
    destruct f as [|[ex|] f]; try discriminate Hn;
      cbn; eexists; (split; [reflexivity|]);
      cbn [trace t_action balances emit with_faults];
      repeat split; repeat rewrite <- app_assoc; reflexivity.
  - eexists. split; [reflexivity|].
    cbn [trace t_action balances emit]. repeat split.
    repeat rewrite <- app_assoc. reflexivity.
Qed.

Lemma expiry_exception_ends_the_process_witness :
  exists w3,
    main_iteration Sample.bot0
      (Sample.world [Sample.tip] [] [Some (Exception "db is gone")])
    = (inl (SystemExit 1), w3)
    /\ trace w3 =
       ([EvLog DEBUG "main(): beginning main() iteration"]
        ++ [EvLog ERROR "main(): exception: %s";
            EvLog ERROR "main(): traceback: %s"]
        ++ [EvNotify])%list
    /\ t_action w3 = []
    /\ balances w3 = [("nyantip", 10%float); ("alice", 7%float)].
Proof.
  pose (w := Sample.world [Sample.tip] [] [Some (Exception "db is gone")]).
  pose (w1 := snd (expire_pending_tips Sample.bot0 (begun w))).
  exact (@expiry_exception_ends_the_process Sample.bot0 w w1
           (Exception "db is gone") eq_refl eq_refl eq_refl).
Defined.

(** C5 as the specification words it fails: a database error in the sweep
    ends the turn with [SystemExit 1]. *)
Lemma expiry_exception_is_not_swallowed : ~ expiry_errors_are_swallowed.
Proof.
  intros H.
  pose (w := Sample.world [Sample.tip] [] [Some (Exception "db is gone")]).
  pose (w1 := snd (expire_pending_tips Sample.bot0 (begun w))).
  destruct (H Sample.bot0 w w1 (Exception "db is gone") eq_refl) as (w3 & Hrun & _).
  vm_compute in Hrun. discriminate Hrun.
Qed.

(* ================================================================== *)
(** ** One message of the batch *)

Ltac open_world w Hf :=
  destruct w as [u ta tu bl cb c tr f]; cbn [faults] in Hf; subst f.

Ltac step_message :=
  unfold process_message, ctb_misc.praw_call, ctb_action.check_action,
    ctb_action.do, ctb_user.tell, ctb_user.new, ctb_user.banned, mark_as_read,
    upstream, bind, log, modify, gets, ret;
  cbn [faults emit with_unread with_t_action with_balances trace t_action
       balances unread ctb_user.name].

(** A message without author is only marked read. *)
Lemma process_message_no_author (self : CointipBot) (m : Message) (w : World) :
  m_author m = None ->
  faults w = [] ->
  exists w',
    process_message self m w = (inr tt, w')
    /\ trace w' =
       (trace w ++ [EvLog INFO "check_inbox(): ignoring msg with no author"]
        ++ [EvMarkRead (m_id m)])%list
    /\ t_action w' = t_action w /\ balances w' = balances w /\ faults w' = [].
Proof.
  intros Ha Hf. open_world w Hf.
  step_message. rewrite Ha. cbn.
  eexists. split; [reflexivity|]. cbn. rewrite <- app_assoc. auto.
Qed.

(** The skip of a duplicate, of a message from the bot and of a message
    from a banned author. *)
Lemma skip_marks_read_only (self : CointipBot) (m : Message) (author : string)
      (w : World) :
  m_author m = Some author ->
  faults w = [] ->
  skipped self m author w = true ->
  exists evs w',
    process_message self m w = (inr tt, w')
    /\ trace w' = (trace w ++ evs ++ [EvMarkRead (m_id m)])%list
    /\ forallb is_log evs = true
    /\ t_action w' = t_action w
    /\ balances w' = balances w
    /\ faults w' = [].
Proof.
  intros Ha Hf Hs. open_world w Hf.
  unfold skipped, has_action, from_self, from_banned in Hs. cbn [t_action] in Hs.
  step_message. rewrite Ha. cbn.
  destruct (existsb _ ta) eqn:Hdup.
  - exists [EvLog INFO "check_inbox(): %s from %s";
            EvLog WARNING "check_inbox(): duplicate action detected (msg.id %s), ignoring"].
    eexists. split; [reflexivity|]. cbn. repeat rewrite <- app_assoc. auto.
  - destruct (String.eqb (lower author) _) eqn:Hself.
    + exists [EvLog INFO "check_inbox(): %s from %s";
              EvLog DEBUG "check_inbox(): ignoring message from self"].
      eexists. split; [reflexivity|]. cbn. repeat rewrite <- app_assoc. auto.
    + cbn in Hs.
      destruct (reddit_banned_users (conf self)); [|discriminate Hs].
      cbn in Hs. cbn. rewrite Hs.
      exists [EvLog INFO "check_inbox(): %s from %s";
              EvLog DEBUG "check_inbox(): checking whether user '%s' is banned...";
              EvLog INFO "check_inbox(): ignoring banned user '%s'"].
      eexists. split; [reflexivity|]. cbn. repeat rewrite <- app_assoc. auto.
Qed.


Lemma not_skipped_inv (self : CointipBot) (m : Message) (author : string) (w : World) :
  skipped self m author w = false ->
  has_action (m_id m) w = false
  /\ from_self self author = false
  /\ (if reddit_banned_users (conf self) then user_banned self author else false) = false.
Proof.
  unfold skipped, from_banned. intros Hs.
  apply orb_false_elim in Hs. destruct Hs as [Hs Hban].
  apply orb_false_elim in Hs. destruct Hs as [Hdup Hself].
  repeat split; auto.
Qed.

(** A message that passes the three checks and matches a pattern is
    executed once and then marked read. *)
Lemma matched_is_executed (self : CointipBot) (m : Message) (author : string)
      (a : CtbAction) (w : World) :
  m_author m = Some author ->
  faults w = [] ->
  skipped self m author w = false ->
  parsed self m = Some a ->
  exists w',
    process_message self m w = (inr tt, w')
    /\ trace w' =
       (trace w ++ [EvLog INFO "check_inbox(): %s from %s"]
        ++ banned_check_log self
        ++ [EvLog INFO "check_inbox(): %s from %s (m.id %s)";
            EvLog DEBUG "check_inbox(): message body: <%s>";
            EvDo (p_type (act a)) (m_id (msg a));
            EvMarkRead (m_id m)])%list
    /\ t_action w' = (t_action w ++ [recorded self a w])%list
    /\ balances w' = snd (executor self a (balances w))
    /\ faults w' = [].
Proof.
  intros Ha Hf Hs Hp. open_world w Hf.
  apply not_skipped_inv in Hs. destruct Hs as (Hdup & Hself & Hban).
  unfold has_action in Hdup. unfold from_self in Hself. cbn [t_action] in Hdup.
  unfold parsed in Hp. unfold banned_check_log, recorded.
  step_message. rewrite Ha.
  cbn [faults emit with_unread with_t_action with_balances trace t_action
       balances unread clock].
  rewrite Hdup, Hself.
  destruct (reddit_banned_users (conf self)).
  - rewrite Hban, Hp.
    cbn [faults emit with_unread with_t_action with_balances trace t_action
         balances unread clock].
    destruct (executor self a bl) as [st b'].
    eexists. split; [reflexivity|].
    cbn [faults emit with_unread with_t_action with_balances trace t_action
         balances unread clock fst snd].
    repeat rewrite <- app_assoc. repeat split.
  - rewrite Hp.
    cbn [faults emit with_unread with_t_action with_balances trace t_action
         balances unread clock].
    destruct (executor self a bl) as [st b'].
    eexists. split; [reflexivity|].
    cbn [faults emit with_unread with_t_action with_balances trace t_action
         balances unread clock fst snd].
    repeat rewrite <- app_assoc. repeat split.
Qed.

(** A message that passes the three checks and matches nothing: the apology
    goes out only when the configuration asks for it and the subject is not
    that of a reply; the message is marked read in both cases. *)
Lemma unmatched_is_marked_read (self : CointipBot) (m : Message) (author : string)
      (w : World) :
  m_author m = Some author ->
  faults w = [] ->
  skipped self m author w = false ->
  parsed self m = None ->
  exists w',
    process_message self m w = (inr tt, w')
    /\ trace w' =
       (trace w ++ [EvLog INFO "check_inbox(): %s from %s"]
        ++ banned_check_log self
        ++ [EvLog INFO "check_inbox(): no match"]
        ++ (if reddit_messages_sorry (conf self) && negb (is_reply m)
            then [EvLog DEBUG "check_inbox(): %s"; apology m author] else [])
        ++ [EvMarkRead (m_id m)])%list
    /\ t_action w' = t_action w
    /\ balances w' = balances w
    /\ faults w' = [].
Proof.
  intros Ha Hf Hs Hp. open_world w Hf.
  apply not_skipped_inv in Hs. destruct Hs as (Hdup & Hself & Hban).
  unfold has_action in Hdup. unfold from_self in Hself. cbn [t_action] in Hdup.
  unfold parsed in Hp. unfold banned_check_log, apology, is_reply.
  step_message. rewrite Ha.
  cbn [faults emit with_unread with_t_action with_balances trace t_action
       balances unread clock].
  rewrite Hdup, Hself.
  destruct (reddit_banned_users (conf self));
    try rewrite Hban; rewrite Hp;
    cbn [faults emit with_unread with_t_action with_balances trace t_action
         balances unread clock];
    destruct (reddit_messages_sorry (conf self)
              && negb (str_in (m_subject m) ["post reply"; "comment reply"]));
    (eexists; split; [reflexivity|]);
    cbn [faults emit with_unread with_t_action with_balances trace t_action
         balances unread clock];
    repeat rewrite <- app_assoc; repeat split.
Qed.

(** C7, as the code has it.  For a fetched message that has an author, is
    not passed over and matches no pattern, the "didn't understand" reply
    is sent exactly when the [sorry] template is configured and the subject
    is neither "post reply" nor "comment reply"; whether or not it is sent,
    the message is then marked read, and ledger and balances are not
    touched. *)
Theorem unmatched_answered_when_configured
        (self : CointipBot) (m : Message) (author : string) (w : World) :
  m_author m = Some author ->
  faults w = [] ->
  skipped self m author w = false ->
  parsed self m = None ->
  exists w',
    process_message self m w = (inr tt, w')
    /\ trace w' =
       (trace w ++ [EvLog INFO "check_inbox(): %s from %s"]
        ++ banned_check_log self
        ++ [EvLog INFO "check_inbox(): no match"]
        ++ (if reddit_messages_sorry (conf self) && negb (is_reply m)
            then [EvLog DEBUG "check_inbox(): %s"; apology m author] else [])
        ++ [EvMarkRead (m_id m)])%list
    /\ t_action w' = t_action w
    /\ balances w' = balances w.
Proof.
  intros Ha Hf Hs Hp.
  destruct (unmatched_is_marked_read self m author w Ha Hf Hs Hp)
    as (w' & Hrun & Htr & Hta & Hbl & _).
  exists w'. auto.
Qed.

Lemma unmatched_answered_when_configured_witness :
  exists w',
    process_message Sample.bot0 Sample.hello (Sample.world [Sample.hello] [] [])
    = (inr tt, w')
    /\ trace w' =
       [EvLog INFO "check_inbox(): %s from %s";
        EvLog DEBUG "check_inbox(): checking whether user '%s' is banned...";
        EvLog INFO "check_inbox(): no match";
        EvLog DEBUG "check_inbox(): %s";
        EvTell "alice" "What?" "message" (Some "t1_a");
        EvMarkRead "t1_a"]
    /\ t_action w' = []
    /\ balances w' = [("nyantip", 10%float); ("alice", 7%float)].
Proof.
  exact (@unmatched_answered_when_configured Sample.bot0 Sample.hello "alice"
           (Sample.world [Sample.hello] [] []) eq_refl eq_refl eq_refl eq_refl).
Defined.

(** C7 as the specification words it fails: with the [sorry] template
    switched off, a private message that matches nothing and is no reply
    gets no answer. *)
Lemma unmatched_is_not_always_answered : ~ unmatched_is_answered.
Proof.
  intros H.
  destruct (H Sample.bot_quiet Sample.hello "alice"
              (Sample.world [Sample.hello] [] []) eq_refl eq_refl eq_refl eq_refl)
    as (w' & Hrun & _ & Hans).
  specialize (Hans eq_refl).
  vm_compute in Hrun. inversion Hrun; subst w'; clear Hrun.
  cbn in Hans.
  repeat (destruct Hans as [Hans|Hans]; [discriminate Hans|]).
  exact Hans.
Qed.

(* ================================================================== *)
(** ** Duplicates *)

Lemma skipped_same_ledger (self : CointipBot) (m : Message) (author : string)
      (w w' : World) :
  t_action w' = t_action w ->
  skipped self m author w' = skipped self m author w.
Proof.
  intros H. unfold skipped, has_action. rewrite H. reflexivity.
Qed.

Lemma no_action_count (msg_id : string) (w : World) :
  has_action msg_id w = false -> actions_for msg_id (t_action w) = 0%nat.
Proof.
  unfold has_action, actions_for.
  induction (t_action w) as [|a l IH]; cbn; [reflexivity|].
  destruct (String.eqb (a_msg_id a) msg_id); cbn; [discriminate|exact IH].
Qed.

Lemma actions_for_app (msg_id : string) (l1 l2 : list Action) :
  actions_for msg_id (l1 ++ l2) = (actions_for msg_id l1 + actions_for msg_id l2)%nat.
Proof.
  unfold actions_for. rewrite filter_app, length_app. reflexivity.
Qed.

Lemma parsed_msg (self : CointipBot) (m : Message) (a : CtbAction) :
  parsed self m = Some a -> msg a = m.
Proof.
  unfold parsed, ctb_action.eval_comment, ctb_action.eval_message.
  destruct (m_was_comment m);
    [destruct (regex_comment self m) | destruct (regex_message self m)];
    cbn; intros H; inversion H; reflexivity.
Qed.

Lemma has_action_recorded (self : CointipBot) (m : Message) (a : CtbAction)
      (w w1 : World) :
  msg a = m ->
  t_action w1 = (t_action w ++ [recorded self a w])%list ->
  has_action (m_id m) w1 = true.
Proof.
  intros Hm H. unfold has_action. rewrite H, existsb_app.
  cbn. rewrite Hm, String.eqb_refl. cbn. apply orb_true_r.
Qed.

(** The second delivery of a message leaves ledger and balances as the
    first delivery left them, and the first leaves one action for the
    message exactly when it got as far as the executor. *)
Lemma second_delivery_changes_nothing (self : CointipBot) (m : Message) (w : World) :
  faults w = [] ->
  has_action (m_id m) w = false ->
  let w1 := snd (process_message self m w) in
  let w2 := snd (process_message self m w1) in
  t_action w2 = t_action w1
  /\ balances w2 = balances w1
  /\ actions_for (m_id m) (t_action w1)
     = if reaches_executor self m then 1%nat else 0%nat.
Proof.
  intros Hf Hno. cbv zeta. unfold reaches_executor.
  destruct (m_author m) as [author|] eqn:Ha.
  - destruct (skipped self m author w) eqn:Hs.
    + destruct (skip_marks_read_only self m author w Ha Hf Hs)
        as (evs & w1 & Hrun & _ & _ & Hta & Hbl & Hf1).
      rewrite Hrun. cbn [snd].
      assert (Hs1 : skipped self m author w1 = true)
        by (rewrite (skipped_same_ledger self m author w w1 Hta); exact Hs).
      destruct (skip_marks_read_only self m author w1 Ha Hf1 Hs1)
        as (evs2 & w2 & Hrun2 & _ & _ & Hta2 & Hbl2 & _).
      rewrite Hrun2. cbn [snd]. repeat split; auto.
      rewrite Hta, (no_action_count _ _ Hno).
      unfold skipped in Hs. rewrite Hno in Hs. cbn in Hs.
      destruct (from_self self author); cbn; [reflexivity|].
      cbn in Hs. rewrite Hs. reflexivity.
    + pose proof (not_skipped_inv self m author w Hs) as (_ & Hself & _).
      assert (Hban : from_banned self author = false).
      { unfold skipped in Hs. apply orb_false_elim in Hs. tauto. }
      rewrite Hself, Hban. cbn [negb andb].
      destruct (parsed self m) as [a|] eqn:Hp.
      * destruct (matched_is_executed self m author a w Ha Hf Hs Hp)
          as (w1 & Hrun & _ & Hta & Hbl & Hf1).
        rewrite Hrun. cbn [snd].
        pose proof (parsed_msg self m a Hp) as Hm.
        assert (Hs1 : skipped self m author w1 = true).
        { unfold skipped.
          rewrite (has_action_recorded self m a w w1 Hm Hta). reflexivity. }
        destruct (skip_marks_read_only self m author w1 Ha Hf1 Hs1)
          as (evs2 & w2 & Hrun2 & _ & _ & Hta2 & Hbl2 & _).
        rewrite Hrun2. cbn [snd]. repeat split; auto.
        rewrite Hta, actions_for_app, (no_action_count _ _ Hno).
        unfold actions_for, recorded. cbn.
        rewrite Hm, String.eqb_refl. reflexivity.
      * destruct (unmatched_is_marked_read self m author w Ha Hf Hs Hp)
          as (w1 & Hrun & _ & Hta & Hbl & Hf1).
        rewrite Hrun. cbn [snd].
        assert (Hs1 : skipped self m author w1 = false)
          by (rewrite (skipped_same_ledger self m author w w1 Hta); exact Hs).
        destruct (unmatched_is_marked_read self m author w1 Ha Hf1 Hs1 Hp)
          as (w2 & Hrun2 & _ & Hta2 & Hbl2 & _).
        rewrite Hrun2. cbn [snd]. repeat split; auto.
        rewrite Hta. apply no_action_count. exact Hno.
  - destruct (process_message_no_author self m w Ha Hf)
      as (w1 & Hrun & _ & Hta & Hbl & Hf1).
    rewrite Hrun. cbn [snd].
    destruct (process_message_no_author self m w1 Ha Hf1)
      as (w2 & Hrun2 & _ & Hta2 & Hbl2 & _).
    rewrite Hrun2. cbn [snd]. repeat split; auto.
    rewrite Hta. apply no_action_count. exact Hno.
Qed.

(** C2, as the code has it.  A message whose id already has an action, or
    whose author is the bot (compared without case) or is banned (the
    banned-user list being configured), is passed over: only log lines and
    the mark-as-read happen, no action is created and nothing is executed
    (every call succeeding).
    Hence a second delivery of a message changes neither ledger nor
    balances: the message has one action when its first delivery reached
    the executor, and none when it matched nothing, came from the bot or
    from a banned or missing author. *)
Theorem redelivery_adds_no_action
        (self : CointipBot) (m : Message) (w : World) :
  faults w = [] ->
  (passed_over self m w = true ->
   exists evs w',
     process_message self m w = (inr tt, w')
     /\ trace w' = (trace w ++ evs ++ [EvMarkRead (m_id m)])%list
     /\ forallb is_log evs = true
     /\ t_action w' = t_action w
     /\ balances w' = balances w)
  /\ (has_action (m_id m) w = false ->
      let w1 := snd (process_message self m w) in
      let w2 := snd (process_message self m w1) in
      t_action w2 = t_action w1
      /\ balances w2 = balances w1
      /\ actions_for (m_id m) (t_action w1)
         = if reaches_executor self m then 1%nat else 0%nat).
Proof.
  intros Hf. split.
  - unfold passed_over. destruct (m_author m) as [author|] eqn:Ha; intros Hs.
    + destruct (skip_marks_read_only self m author w Ha Hf Hs)
        as (evs & w' & Hrun & Htr & Hlog & Hta & Hbl & _).
      exists evs, w'. auto.
    + destruct (process_message_no_author self m w Ha Hf)
        as (w' & Hrun & Htr & Hta & Hbl & _).
      exists [EvLog INFO "check_inbox(): ignoring msg with no author"], w'. auto.
  - intros Hno. exact (second_delivery_changes_nothing self m w Hf Hno).
Qed.

Lemma redelivery_adds_no_action_witness :
  (exists evs w',
      process_message Sample.bot0 Sample.from_self
        (Sample.world [Sample.from_self] [] []) = (inr tt, w')
      /\ trace w' = ([] ++ evs ++ [EvMarkRead "t1_c"])%list
      /\ forallb is_log evs = true
      /\ t_action w' = []
      /\ balances w' = [("nyantip", 10%float); ("alice", 7%float)])
  /\ (let w1 := snd (process_message Sample.bot0 Sample.tip
                       (Sample.world [Sample.tip; Sample.tip] [] [])) in
      let w2 := snd (process_message Sample.bot0 Sample.tip w1) in
      t_action w2 = t_action w1
      /\ balances w2 = balances w1
      /\ actions_for "t1_b" (t_action w1) = 1%nat).
Proof.
  split.
  - exact (proj1 (@redelivery_adds_no_action Sample.bot0 Sample.from_self
                    (Sample.world [Sample.from_self] [] []) eq_refl)
                 eq_refl).
  - exact (proj2 (@redelivery_adds_no_action Sample.bot0 Sample.tip
                    (Sample.world [Sample.tip; Sample.tip] [] []) eq_refl)
                 eq_refl).
Defined.

(** C2 as the specification words it fails: a private message that matches
    no pattern, delivered twice, leaves no action at all. *)
Lemma redelivery_may_yield_no_action : ~ redelivery_yields_one_action.
Proof.
  intros [_ H].
  specialize (H Sample.bot0 Sample.hello
                (Sample.world [Sample.hello; Sample.hello] [] []) eq_refl eq_refl).
  vm_compute in H. discriminate H.
Qed.

(* ================================================================== *)
(** ** The batch *)

Lemma logs_are_not_mark_read (evs : list event) :
  forallb is_log evs = true ->
  forallb (fun ev => negb (is_mark_read ev)) evs = true.
Proof.
  induction evs as [|ev evs IH]; cbn; [reflexivity|].
  destruct ev; cbn; try discriminate. exact IH.
Qed.

(** With nothing failing, every message ends with its own mark-as-read. *)
Lemma process_message_ok (self : CointipBot) (m : Message) (w : World) :
  faults w = [] ->
  exists seg w',
    process_message self m w = (inr tt, w')
    /\ trace w' = (trace w ++ seg)%list
    /\ handles m seg
    /\ faults w' = [].
Proof.
  intros Hf. unfold handles.
  destruct (m_author m) as [author|] eqn:Ha.
  - destruct (skipped self m author w) eqn:Hs.
    + destruct (skip_marks_read_only self m author w Ha Hf Hs)
        as (evs & w' & Hrun & Htr & Hlog & _ & _ & Hf').
      exists (evs ++ [EvMarkRead (m_id m)])%list, w'.
      repeat split; auto.
      exists evs. split; [reflexivity|]. apply logs_are_not_mark_read, Hlog.
    + destruct (parsed self m) as [a|] eqn:Hp.
      * destruct (matched_is_executed self m author a w Ha Hf Hs Hp)
          as (w' & Hrun & Htr & _ & _ & Hf').
        eexists. exists w'. split; [exact Hrun|]. split; [exact Htr|].
        split; [|exact Hf'].
        exists ([EvLog INFO "check_inbox(): %s from %s"]
                ++ banned_check_log self
                ++ [EvLog INFO "check_inbox(): %s from %s (m.id %s)";
                    EvLog DEBUG "check_inbox(): message body: <%s>";
                    EvDo (p_type (act a)) (m_id (msg a))])%list.
        unfold banned_check_log.
        destruct (reddit_banned_users (conf self)); split; reflexivity.
      * destruct (unmatched_is_marked_read self m author w Ha Hf Hs Hp)
          as (w' & Hrun & Htr & _ & _ & Hf').
        eexists. exists w'. split; [exact Hrun|]. split; [exact Htr|].
        split; [|exact Hf'].
        exists ([EvLog INFO "check_inbox(): %s from %s"]
                ++ banned_check_log self
                ++ [EvLog INFO "check_inbox(): no match"]
                ++ (if reddit_messages_sorry (conf self) && negb (is_reply m)
                    then [EvLog DEBUG "check_inbox(): %s"; apology m author]
                    else []))%list.
        unfold banned_check_log, apology.
        destruct (reddit_banned_users (conf self));
          destruct (reddit_messages_sorry (conf self) && negb (is_reply m));
          split; reflexivity.
  - destruct (process_message_no_author self m w Ha Hf)
      as (w' & Hrun & Htr & _ & _ & Hf').
    eexists. exists w'. split; [exact Hrun|]. split; [exact Htr|].
    split; [|exact Hf'].
    exists [EvLog INFO "check_inbox(): ignoring msg with no author"].
    split; reflexivity.
Qed.

(** The loop deals with the messages one after the other, in list order. *)
Lemma for_each_message_ok (self : CointipBot) (ms : list Message) :
  forall w,
    faults w = [] ->
    exists segs w',
      for_each ms (process_message self) w = (inr tt, w')
      /\ trace w' = (trace w ++ List.concat segs)%list
      /\ Forall2 handles ms segs
      /\ faults w' = [].
Proof.
  induction ms as [|m ms IH]; intros w Hf.
  - exists [], w. cbn. rewrite app_nil_r. repeat split; auto.
  - destruct (process_message_ok self m w Hf) as (seg & w1 & Hrun & Htr & Hh & Hf1).
    destruct (IH w1 Hf1) as (segs & w' & Hrest & Htr' & Hall & Hf').
    exists (seg :: segs), w'.
    cbn [for_each]. unfold bind. rewrite Hrun, Hrest.
    split; [reflexivity|]. split; [|split; [constructor; assumption|exact Hf']].
    rewrite Htr', Htr. cbn [List.concat]. rewrite app_assoc. reflexivity.
Qed.

Lemma mark_read_order (ms : list Message) (segs : list (list event)) :
  Forall2 handles ms segs ->
  filter is_mark_read (List.concat segs) = map (fun m => EvMarkRead (m_id m)) ms.
Proof.
  induction 1 as [|m seg ms segs (pre & Hseg & Hpre) _ IH]; [reflexivity|].
  cbn [List.concat map]. rewrite filter_app, IH, Hseg, filter_app. cbn.
  replace (filter is_mark_read pre) with (@nil event); [reflexivity|].
  clear -Hpre. induction pre as [|ev pre IHp]; [reflexivity|].
  cbn in *. apply andb_prop in Hpre. destruct Hpre as [H1 H2].
  destruct (is_mark_read ev); [discriminate|]. auto.
Qed.

(** C8.  A poll asks the inbox for at most [batch_limit] unread items, so
    the batch is no longer than that; the fetched sequence is reversed, and
    the loop then deals with the messages in that reversed (oldest-first)
    order, one at a time: the trace of the batch is one stretch per message,
    each closed by the mark-as-read of its own message before the stretch of
    the next one starts. *)
Theorem batch_is_bounded_and_in_order (self : CointipBot) (w : World) :
  faults w = [] ->
  let limit := reddit_scan_batch_limit (conf self) in
  let fetched := firstn limit (unread w) in
  (List.length fetched <= limit)%nat
  /\ exists segs w',
       check_inbox_try self w = (inr tt, w')
       /\ trace w' = (trace w ++ [EvGetUnread limit] ++ List.concat segs)%list
       /\ Forall2 handles (rev fetched) segs
       /\ filter is_mark_read (List.concat segs)
          = map (fun m => EvMarkRead (m_id m)) (rev fetched).
Proof.
  intros Hf limit fetched. split.
  - apply firstn_le_length.
  - set (w0 := emit (EvGetUnread limit) w).
    assert (Hf0 : faults w0 = []) by exact Hf.
    destruct (for_each_message_ok self (rev fetched) w0 Hf0)
      as (segs & w' & Hrun & Htr & Hall & _).
    exists segs, w'.
    split; [|split; [|split]].
    + unfold check_inbox_try, ctb_misc.praw_call, get_unread, upstream, bind,
        modify, gets. rewrite Hf.
      cbn [unread emit]. exact Hrun.
    + rewrite Htr. unfold w0. cbn [trace emit]. rewrite <- app_assoc. reflexivity.
    + exact Hall.
    + apply mark_read_order, Hall.
Qed.

Lemma batch_is_bounded_and_in_order_witness :
  let w := Sample.world [Sample.from_self; Sample.tip; Sample.hello] [] [] in
  (List.length [Sample.from_self; Sample.tip] <= 2)%nat
  /\ exists segs w',
       check_inbox_try Sample.bot0 w = (inr tt, w')
       /\ trace w' = ([] ++ [EvGetUnread 2] ++ List.concat segs)%list
       /\ Forall2 handles [Sample.tip; Sample.from_self] segs
       /\ filter is_mark_read (List.concat segs)
          = [EvMarkRead "t1_b"; EvMarkRead "t1_c"].
Proof.
  exact (@batch_is_bounded_and_in_order Sample.bot0
           (Sample.world [Sample.from_self; Sample.tip; Sample.hello] [] [])
           eq_refl).
Defined.

(* ================================================================== *)
(** ** The expiry sweep *)

Lemma bind_inr {A B : Type} (m : M A) (f : A -> M B) (w : World) (a : A)
      (w' : World) :
  m w = (inr a, w') -> bind m f w = f a w'.
Proof.
  intros H. unfold bind. rewrite H. reflexivity.
Qed.

Lemma get_actions_ok (atype state : string) (created_utc : option Z) (w : World) :
  faults w = [] ->
  ctb_action.get_actions atype state created_utc w
  = (inr (filter (ctb_action.selected atype state created_utc) (t_action w)), w).
Proof.
  intros Hf. unfold ctb_action.get_actions, upstream, bind, gets.
  rewrite Hf. reflexivity.
Qed.

Lemma expire_ok (a : Action) (w : World) :
  faults w = [] ->
  (forall r, In r (t_action w) -> a_msg_id r = a_msg_id a -> a_state r = "pending") ->
  ctb_action.expire a w
  = (inr tt,
     emit (EvExpire (a_msg_id a))
          (with_t_action (map (expire_if (has_id (a_msg_id a))) (t_action w)) w)).
Proof.
  intros Hf Hp.
  unfold ctb_action.expire, ctb_action.transition, upstream, bind, gets, modify, raise.
  rewrite Hf.
  destruct (existsb _ (t_action w)) eqn:E.
  - apply existsb_exists in E. destruct E as (r & Hin & Hr).
    apply andb_prop in Hr. destruct Hr as [Hid Hterm].
    apply String.eqb_eq in Hid.
    rewrite (Hp r Hin Hid) in Hterm. discriminate Hterm.
  - reflexivity.
Qed.

Lemma expire_if_twice (msg_id : string) (ids : list string) (r : Action) :
  expire_if (id_among ids) (expire_if (has_id msg_id) r)
  = expire_if (id_among (msg_id :: ids)) r.
Proof.
  unfold expire_if, id_among, has_id. cbn [existsb].
  destruct (String.eqb (a_msg_id r) msg_id); cbn.
  - destruct (existsb _ ids); reflexivity.
  - reflexivity.
Qed.

(** The loop of the sweep over a list of rows with distinct ids, all of
    whose namesakes in the table are pending. *)
Lemma expire_loop (l : list Action) :
  forall (w : World) (counter : Z),
    faults w = [] ->
    NoDup (map a_msg_id l) ->
    (forall a r, In a l -> In r (t_action w) ->
                 a_msg_id r = a_msg_id a -> a_state r = "pending") ->
    exists w',
      for_acc l counter
        (fun counter a => ctb_action.expire a ;; ret (counter + 1)) w
      = (inr (counter + Z.of_nat (List.length l)), w')
      /\ t_action w' = map (expire_if (id_among (map a_msg_id l))) (t_action w)
      /\ trace w' = (trace w ++ map (fun a => EvExpire (a_msg_id a)) l)%list
      /\ balances w' = balances w
      /\ t_users w' = t_users w
      /\ unread w' = unread w.
Proof.
  induction l as [|a l IH]; intros w counter Hf Hnd Hp.
  - exists w. cbn. rewrite Z.add_0_r, app_nil_r. repeat split.
    symmetry. rewrite <- (map_id (t_action w)) at 2. apply map_ext.
    intros r. reflexivity.
  - cbn [map] in Hnd. inversion Hnd as [|x xs Hnotin Hnd']; subst.
    set (w1 := emit (EvExpire (a_msg_id a))
                 (with_t_action (map (expire_if (has_id (a_msg_id a))) (t_action w)) w)).
    assert (Hstep : ctb_action.expire a w = (inr tt, w1)).
    { apply expire_ok; [exact Hf|]. intros r Hin Hid.
      apply (Hp a r); [left; reflexivity | exact Hin | exact Hid]. }
    assert (Hp1 : forall a' r, In a' l -> In r (t_action w1) ->
                    a_msg_id r = a_msg_id a' -> a_state r = "pending").
    { intros a' r' Ha' Hr' Hid. unfold w1 in Hr'. cbn [t_action emit with_t_action] in Hr'.
      apply in_map_iff in Hr'. destruct Hr' as (r & Hr & Hin). subst r'.
      unfold expire_if, has_id in *.
      destruct (String.eqb (a_msg_id r) (a_msg_id a)) eqn:E.
      - exfalso. apply Hnotin. apply String.eqb_eq in E.
        cbn in Hid. rewrite E in Hid. rewrite Hid.
        apply in_map. exact Ha'.
      - apply (Hp a' r); [right; exact Ha' | exact Hin | exact Hid]. }
    destruct (IH w1 (counter + 1) Hf Hnd' Hp1)
      as (w' & Hrun & Hta & Htr & Hbl & Htu & Hun).
    exists w'. split; [|split; [|split; [|repeat split; assumption]]].
    + cbn [for_acc]. unfold bind at 1. unfold bind at 1. rewrite Hstep.
      unfold ret at 1. rewrite Hrun. f_equal. f_equal.
      cbn [List.length]. lia.
    + rewrite Hta. unfold w1. cbn [t_action emit with_t_action].
      rewrite map_map. apply map_ext. intros r. apply expire_if_twice.
    + rewrite Htr. unfold w1. cbn [trace emit with_t_action map].
      rewrite <- app_assoc. reflexivity.
Qed.

Lemma same_id_same_row (l : list Action) (a b : Action) :
  NoDup (map a_msg_id l) -> In a l -> In b l -> a_msg_id a = a_msg_id b -> a = b.
Proof.
  induction l as [|x l IH]; intros Hnd Ha Hb Hid; [contradiction|].
  cbn in Hnd. inversion Hnd as [|y ys Hnotin Hnd']; subst.
  destruct Ha as [Ha|Ha], Hb as [Hb|Hb]; subst.
  - reflexivity.
  - exfalso. apply Hnotin. rewrite Hid. apply in_map. exact Hb.
  - exfalso. apply Hnotin. rewrite <- Hid. apply in_map. exact Ha.
  - apply IH; assumption.
Qed.

Lemma NoDup_map_filter (p : Action -> bool) (l : list Action) :
  NoDup (map a_msg_id l) -> NoDup (map a_msg_id (filter p l)).
Proof.
  induction l as [|x l IH]; intros Hnd; [constructor|].
  cbn in Hnd. inversion Hnd as [|y ys Hnotin Hnd']; subst.
  cbn. destruct (p x); [|apply IH; exact Hnd'].
  cbn. constructor; [|apply IH; exact Hnd'].
  intros Hin. apply Hnotin. apply in_map_iff in Hin.
  destruct Hin as (r & Hr & Hin). apply filter_In in Hin.
  rewrite <- Hr. apply in_map. tauto.
Qed.

Lemma counter_positive (p : Action -> bool) (l : list Action) :
  Z.ltb 0 (0 + Z.of_nat (List.length (filter p l))) = existsb p l.
Proof.
  induction l as [|x l IH]; [reflexivity|].
  cbn [filter existsb]. destruct (p x); [|exact IH].
  cbn [List.length orb]. apply Z.ltb_lt. lia.
Qed.

Lemma due_iff (self : CointipBot) (w : World) (a : Action) :
  due self w a = true
  <-> a_type a = "givetip" /\ a_state a = "pending"
      /\ a_created_utc a
         < clock w
           - seconds_of (misc_times_expire_pending_hours (conf self)).
Proof.
  unfold due, ctb_action.selected, ctb_action.created_matches.
  rewrite !andb_true_iff, !String.eqb_eq, Z.ltb_lt. tauto.
Qed.




(* ================================================================== *)
(** ** The start-up checks *)

(** [self_checks] never returns: the read of [user] on line 148 comes
    before the only assignment to it. *)
Lemma self_checks_always_raises (self : CointipBot) (w : World) :
  exists e w', self_checks self w = (inl e, w').
Proof.
  unfold self_checks, load_local.
  unfold bind at 1.
  destruct (ctb_user.is_registered _ w) as [[e|registered] w1]; [eauto|].
  destruct registered; cbn [negb]; unfold bind at 1.
  - unfold ret at 1. unfold bind at 1. unfold raise. eauto.
  - destruct (ctb_user.register _ w1) as [[e|[]] w2]; [eauto|].
    unfold bind at 1. unfold raise. eauto.
Qed.

(** C6: what the code does.  With no call failing, [self_checks] raises
    [UnboundLocalError] for [user] as soon as the bot is known to be
    registered, whatever the balance and the pending tips are: the
    comparison with the tolerance of 1e-6 is never reached, and the
    function never returns [True]. *)
Theorem self_checks_stops_before_the_balance_check (self : CointipBot) (w : World) :
  faults w = [] ->
  exists w',
    self_checks self w = (inl (UnboundLocalError "user"), w')
    /\ t_action w' = t_action w
    /\ balances w' = balances w.
Proof.
  intros Hf. open_world w Hf.
  unfold self_checks, load_local, ctb_user.is_registered, ctb_user.register,
    upstream, bind, gets, modify, raise, ret.
  cbn [faults t_users].
  destruct (existsb _ tu); cbn; eexists; (split; [reflexivity|]); split; reflexivity.
Qed.

Lemma self_checks_stops_before_the_balance_check_witness :
  exists w',
    self_checks Sample.bot0 (Sample.world [] [Sample.fresh_tip] [])
    = (inl (UnboundLocalError "user"), w')
    /\ t_action w' = [Sample.fresh_tip]
    /\ balances w' = [("nyantip", 10%float); ("alice", 7%float)].
Proof.
  exact (@self_checks_stops_before_the_balance_check Sample.bot0
           (Sample.world [] [Sample.fresh_tip] []) eq_refl).
Defined.

(* ================================================================== *)
(** ** The tips page *)

Import ctb_stats.

(** C10.  For a column whose name contains "type" and none of the names
    tested before it in a way that matches ("coin" with a float, "user"
    with a string, "addr", "state"), a truthy value that is not "givetip"
    and, when [compact] is set, not "withdraw" either, makes [format_value]
    run off its end: the result is [None], not a string. *)
Theorem type_column_formats_to_None
        (rt : Runtime) (ctb : CointipBot) (m : Row) (k username : string)
        (compact : bool) (v : value) :
  getitem m k = inr v ->
  truthy v = true ->
  Z.gtb (find k "type") (-1) = true ->
  as_float v = None \/ Z.gtb (find k "coin") (-1) = false ->
  Z.gtb (find k "user") (-1) = false \/ as_str v = None ->
  Z.gtb (find k "addr") (-1) = false ->
  Z.gtb (find k "state") (-1) = false ->
  eq_str v "givetip" = false ->
  compact = false \/ eq_str v "withdraw" = false ->
  format_value rt ctb m k username compact = inr VNone.
Proof.
  intros Hv Ht Htype Hcoin Huser Haddr Hstate Hgive Hw.
  unfold format_value. rewrite Hv. cbn [ebind]. rewrite Ht. cbn [negb].
  assert (H1 : match as_float v, Z.gtb (find k "coin") (-1) with
               | Some _, true => false | _, _ => true end = true).
  { destruct Hcoin as [H|H]; rewrite H; [reflexivity|].
    destruct (as_float v); reflexivity. }
  assert (H2 : match Z.gtb (find k "user") (-1), as_str v with
               | true, Some _ => false | _, _ => true end = true).
  { destruct Huser as [H|H]; rewrite H; [reflexivity|].
    destruct (Z.gtb (find k "user") (-1)); reflexivity. }
  destruct (as_float v), (Z.gtb (find k "coin") (-1)); try discriminate H1;
    destruct (Z.gtb (find k "user") (-1)), (as_str v); try discriminate H2;
    rewrite Haddr, Hstate, Htype, Hgive;
    destruct Hw as [Hw|Hw]; rewrite Hw; try reflexivity;
    destruct compact; reflexivity.
Qed.

Lemma type_column_formats_to_None_witness :
  format_value Sample.rt0 Sample.bot0 [("type", VStr "register")] "type" "" false
  = inr VNone.
Proof.
  apply (@type_column_formats_to_None Sample.rt0 Sample.bot0
           [("type", VStr "register")] "type" "" false (VStr "register"));
    try reflexivity; try (left; reflexivity); right; reflexivity.
Defined.

Lemma new_events_app (w w' : World) (evs : list event) :
  trace w' = (trace w ++ evs)%list -> new_events w w' = evs.
Proof.
  unfold new_events. intros H. rewrite H. clear H.
  induction (trace w) as [|x l IH]; [reflexivity | exact IH].
Qed.

Lemma update_tips_outcome (rt : Runtime) (ctb : CointipBot) (w : World) :
  faults w = [] ->
  exists w',
    update_tips rt ctb w = (fst (tips_outcome rt ctb (t_action w)), w')
    /\ trace w' = (trace w ++ snd (tips_outcome rt ctb (t_action w)))%list
    /\ t_action w' = t_action w
    /\ faults w' = [].
Proof.
  intros Hf. open_world w Hf.
  unfold update_tips, tips_outcome, db_execute, wiki_edit, ctb_misc.praw_call,
    lift, upstream, bind, gets, log, modify, ret.
  cbn [faults t_action trace emit].
  destruct (build_table rt ctb _ _ _) as [e|tip_list];
    cbn [fst snd faults t_action trace emit];
    eexists; (split; [reflexivity|]); cbn [faults t_action trace emit].
  - rewrite app_nil_r. auto.
  - rewrite <- app_assoc. auto.
Qed.

(** C9.  [format_value] is a function of the row, the key, the user name,
    the [compact] flag, the configuration and the formatting routines of the
    runtime; it reads and changes nothing else.  So two runs of
    [update_tips] over the same action table, whatever else differs between
    the two worlds, return the same result and submit the same page text,
    the one computed from the table alone;
    and a run leaves the table as it was, so running it again at once
    repeats the first run. *)
Theorem tips_page_is_stable (rt : Runtime) (ctb : CointipBot) (w1 w2 : World) :
  faults w1 = [] ->
  faults w2 = [] ->
  t_action w1 = t_action w2 ->
  let r1 := update_tips rt ctb w1 in
  let r2 := update_tips rt ctb w2 in
  let r3 := update_tips rt ctb (snd r1) in
  (fst r1, new_events w1 (snd r1)) = tips_outcome rt ctb (t_action w1)
  /\ fst r1 = fst r2
  /\ new_events w1 (snd r1) = new_events w2 (snd r2)
  /\ fst r3 = fst r1
  /\ new_events (snd r1) (snd r3) = new_events w1 (snd r1).
Proof.
  intros Hf1 Hf2 Hta. cbv zeta.
  destruct (update_tips_outcome rt ctb w1 Hf1) as (w1' & Hr1 & Ht1 & Hta1 & Hf1').
  destruct (update_tips_outcome rt ctb w2 Hf2) as (w2' & Hr2 & Ht2 & _ & _).
  rewrite Hr1, Hr2. cbn [fst snd].
  destruct (update_tips_outcome rt ctb w1' Hf1') as (w3' & Hr3 & Ht3 & _ & _).
  rewrite Hr3. cbn [fst snd].
  rewrite (new_events_app w1 w1' _ Ht1), (new_events_app w2 w2' _ Ht2),
    (new_events_app w1' w3' _ Ht3).
  rewrite Hta1, Hta. repeat split.
  destruct (tips_outcome rt ctb (t_action w2)); reflexivity.
Qed.

Lemma tips_page_is_stable_witness :
  let w1 := Sample.world [] [Sample.old_tip; Sample.done_tip] [] in
  let w2 := Sample.world [Sample.hello] [Sample.old_tip; Sample.done_tip] [] in
  let r1 := update_tips Sample.rt0 Sample.bot0 w1 in
  let r2 := update_tips Sample.rt0 Sample.bot0 w2 in
  let r3 := update_tips Sample.rt0 Sample.bot0 (snd r1) in
  (fst r1, new_events w1 (snd r1))
  = tips_outcome Sample.rt0 Sample.bot0 [Sample.old_tip; Sample.done_tip]
  /\ fst r1 = fst r2
  /\ new_events w1 (snd r1) = new_events w2 (snd r2)
  /\ fst r3 = fst r1
  /\ new_events (snd r1) (snd r3) = new_events w1 (snd r1).
Proof.
  exact (@tips_page_is_stable Sample.rt0 Sample.bot0
           (Sample.world [] [Sample.old_tip; Sample.done_tip] [])
           (Sample.world [Sample.hello] [Sample.old_tip; Sample.done_tip] [])
           eq_refl eq_refl eq_refl).
Defined.

(* ================================================================== *)
(** ** Rules for triples *)

Import Triples Behaviour.

Lemma hoare_conseq {A : Type} (P P' : World -> Prop) (c : M A)
      (Q Q' : A -> World -> Prop) (X X' : exn -> World -> Prop) :
  hoare P' c Q' X' ->
  (forall w, P w -> P' w) ->
  (forall a w, Q' a w -> Q a w) ->
  (forall e w, X' e w -> X e w) ->
  hoare P c Q X.
Proof.
  intros H HP HQ HX w Hw. specialize (H w (HP w Hw)).
  destruct (c w) as [[e|a] w']; auto.
Qed.

Lemma hoare_ret {A : Type} (P : World -> Prop) (a : A)
      (Q : A -> World -> Prop) (X : exn -> World -> Prop) :
  (forall w, P w -> Q a w) -> hoare P (ret a) Q X.
Proof. intros H w Hw. exact (H w Hw). Qed.

Lemma hoare_raise {A : Type} (P : World -> Prop) (e : exn)
      (Q : A -> World -> Prop) (X : exn -> World -> Prop) :
  (forall w, P w -> X e w) -> hoare P (@raise A e) Q X.
Proof. intros H w Hw. exact (H w Hw). Qed.

Lemma hoare_bind {A B : Type} (P : World -> Prop) (m : M A) (k : A -> M B)
      (R : A -> World -> Prop) (Q : B -> World -> Prop)
      (X : exn -> World -> Prop) :
  hoare P m R X ->
  (forall a, hoare (R a) (k a) Q X) ->
  hoare P (bind m k) Q X.
Proof.
  intros Hm Hk w Hw. unfold bind. specialize (Hm w Hw).
  destruct (m w) as [[e|a] w1]; [exact Hm|].
  exact (Hk a w1 Hm).
Qed.

Lemma hoare_modify (P : World -> Prop) (g : World -> World)
      (Q : unit -> World -> Prop) (X : exn -> World -> Prop) :
  (forall w, P w -> Q tt (g w)) -> hoare P (modify g) Q X.
Proof. intros H w Hw. exact (H w Hw). Qed.

Lemma hoare_gets {A : Type} (P : World -> Prop) (g : World -> A)
      (Q : A -> World -> Prop) (X : exn -> World -> Prop) :
  (forall w, P w -> Q (g w) w) -> hoare P (gets g) Q X.
Proof. intros H w Hw. exact (H w Hw). Qed.

(** What a call that leaves the process does: it uses up the head of the
    script, and raises it when it is an exception. *)
Lemma hoare_upstream (P : World -> Prop) (Q : unit -> World -> Prop)
      (X : exn -> World -> Prop) :
  (forall w, P w -> faults w = [] -> Q tt w) ->
  (forall w fs, P w -> faults w = None :: fs -> Q tt (with_faults fs w)) ->
  (forall w e fs, P w -> faults w = Some e :: fs -> X e (with_faults fs w)) ->
  hoare P upstream Q X.
Proof.
  intros H0 H1 H2 w Hw. unfold upstream.
  destruct (faults w) as [|[e|] fs] eqn:E; auto.
Qed.

Lemma hoare_try_except {A : Type} (P : World -> Prop) (body : M A)
      (handlers : exn -> option (M A)) (Q : A -> World -> Prop)
      (X' X : exn -> World -> Prop) :
  hoare P body Q X' ->
  (forall e h, handlers e = Some h -> hoare (X' e) h Q X) ->
  (forall e w, handlers e = None -> X' e w -> X e w) ->
  hoare P (try_except body handlers) Q X.
Proof.
  intros Hb Hh Hn w Hw. unfold try_except. specialize (Hb w Hw).
  destruct (body w) as [[e|a] w1]; [|exact Hb].
  destruct (handlers e) as [h|] eqn:E.
  - exact (Hh e h E w1 Hb).
  - exact (Hn e w1 E Hb).
Qed.

(** *** Invariants *)

Lemma invariant_weaken {A : Type} (I : World -> Prop) (E E' : exn -> Prop) (c : M A) :
  invariant I E' c -> (forall e, E' e -> E e) -> invariant I E c.
Proof.
  intros H HE. unfold invariant in *.
  eapply hoare_conseq; [exact H| auto | auto |].
  intros e w [Hi He]. split; auto.
Qed.

Lemma invariant_ret {A : Type} (I : World -> Prop) (E : exn -> Prop) (a : A) :
  invariant I E (ret a).
Proof. apply hoare_ret. auto. Qed.

Lemma invariant_raise {A : Type} (I : World -> Prop) (E : exn -> Prop) (e : exn) :
  E e -> invariant I E (@raise A e).
Proof. intros He. apply hoare_raise. auto. Qed.

Lemma invariant_bind {A B : Type} (I : World -> Prop) (E : exn -> Prop)
      (m : M A) (k : A -> M B) :
  invariant I E m -> (forall a, invariant I E (k a)) -> invariant I E (bind m k).
Proof.
  intros Hm Hk. unfold invariant in *.
  eapply hoare_bind; [exact Hm|]. intros a. exact (Hk a).
Qed.

Lemma invariant_modify (I : World -> Prop) (E : exn -> Prop) (g : World -> World) :
  (forall w, I w -> I (g w)) -> invariant I E (modify g).
Proof. intros H. apply hoare_modify. exact H. Qed.

Lemma invariant_gets {A : Type} (I : World -> Prop) (E : exn -> Prop) (g : World -> A) :
  invariant I E (gets g).
Proof. apply hoare_gets. auto. Qed.

Lemma invariant_upstream (I : World -> Prop) (E : exn -> Prop) :
  (forall w fs, I w -> faults w = None :: fs -> I (with_faults fs w)) ->
  (forall w e fs, I w -> faults w = Some e :: fs -> I (with_faults fs w) /\ E e) ->
  invariant I E upstream.
Proof.
  intros H1 H2. apply hoare_upstream; auto.
Qed.

Lemma invariant_for_each {A : Type} (I : World -> Prop) (E : exn -> Prop)
      (body : A -> M unit) (l : list A) :
  (forall x, In x l -> invariant I E (body x)) ->
  invariant I E (for_each l body).
Proof.
  induction l as [|x l IH]; intros H; cbn [for_each].
  - apply invariant_ret.
  - apply invariant_bind; [apply H; left; reflexivity|].
    intros _. apply IH. intros y Hy. apply H. right. exact Hy.
Qed.

Lemma invariant_for_acc {A B : Type} (I : World -> Prop) (E : exn -> Prop)
      (body : B -> A -> M B) (l : list A) :
  (forall acc x, In x l -> invariant I E (body acc x)) ->
  forall acc, invariant I E (for_acc l acc body).
Proof.
  induction l as [|x l IH]; intros H acc; cbn [for_acc].
  - apply invariant_ret.
  - apply invariant_bind; [apply H; left; reflexivity|].
    intros acc'. apply IH. intros a y Hy. apply H. right. exact Hy.
Qed.

Lemma invariant_try_except {A : Type} (I : World -> Prop) (E' E : exn -> Prop)
      (body : M A) (handlers : exn -> option (M A)) :
  invariant I E' body ->
  (forall e h, E' e -> handlers e = Some h -> invariant I E h) ->
  (forall e, E' e -> handlers e = None -> E e) ->
  invariant I E (try_except body handlers).
Proof.
  intros Hb Hh Hn w Hw. unfold try_except. specialize (Hb w Hw).
  destruct (body w) as [[e|a] w1]; [|exact Hb].
  destruct Hb as [Hi He].
  destruct (handlers e) as [h|] eqn:Eh.
  - exact (Hh e h He Eh w1 Hi).
  - split; [exact Hi|exact (Hn e He Eh)].
Qed.

Lemma invariant_run {A : Type} (I : World -> Prop) (E : exn -> Prop) (c : M A)
      (w : World) :
  invariant I E c -> I w ->
  I (snd (c w)) /\ forall e, fst (c w) = inl e -> E e.
Proof.
  intros H Hw. specialize (H w Hw).
  destruct (c w) as [[e|a] w']; cbn.
  - destruct H as [Hi He]. split; [exact Hi|].
    intros e' H'. inversion H'. subst. exact He.
  - split; [exact H|]. intros e' H'. discriminate H'.
Qed.

(* ================================================================== *)
(** ** Where exceptions come from *)

Lemma later_refl (w : World) : later w w.
Proof. exists []. reflexivity. Qed.

Lemma later_trans (w0 w1 w2 : World) : later w0 w1 -> later w1 w2 -> later w0 w2.
Proof.
  intros [u1 H1] [u2 H2]. exists (u1 ++ u2)%list.
  rewrite H1, H2, app_assoc. reflexivity.
Qed.

Lemma later_same_script (w0 w w' : World) :
  later w0 w -> faults w' = faults w -> later w0 w'.
Proof. intros [u H] E. exists u. rewrite E. exact H. Qed.

Lemma later_step (w0 w : World) (f : option exn) (fs : list (option exn)) :
  later w0 w -> faults w = f :: fs -> later w0 (with_faults fs w).
Proof.
  intros [u H] E. exists (u ++ [f])%list. cbn [faults with_faults].
  rewrite H, E, <- app_assoc. reflexivity.
Qed.

Lemma later_from_env (w0 w : World) (e : exn) (fs : list (option exn)) :
  later w0 w -> faults w = Some e :: fs -> from_env w0 e.
Proof.
  intros [u H] E. unfold from_env. rewrite H, E.
  apply in_or_app. right. left. reflexivity.
Qed.

Lemma from_env_later (w0 w : World) (e : exn) :
  later w0 w -> from_env w e -> from_env w0 e.
Proof.
  intros [u H] He. unfold from_env in *. rewrite H.
  apply in_or_app. right. exact He.
Qed.

(** A call that leaves the process raises only what the script holds. *)
Lemma upstream_from_env (w0 : World) (E : exn -> Prop) :
  (forall e, from_env w0 e -> E e) ->
  invariant (later w0) E upstream.
Proof.
  intros HE. apply invariant_upstream.
  - intros w fs Hl Hf. exact (later_step w0 w None fs Hl Hf).
  - intros w e fs Hl Hf. split.
    + exact (later_step w0 w (Some e) fs Hl Hf).
    + apply HE. exact (later_from_env w0 w e fs Hl Hf).
Qed.

Ltac script_kept :=
  let w := fresh "w" in
  let H := fresh "H" in
  intros w H;
  try match goal with
      | |- context [executor ?s ?a ?b] => destruct (executor s a b)
      end;
  apply (later_same_script _ w _ H); reflexivity.

Ltac env_step :=
  match goal with
  | |- invariant _ _ (ret _) => apply invariant_ret
  | |- invariant _ _ (gets _) => apply invariant_gets
  | |- invariant _ _ (bind _ _) => apply invariant_bind; [|intros ?]
  | |- invariant _ _ (modify _) => apply invariant_modify; script_kept
  | |- invariant _ _ upstream => apply upstream_from_env; solve [auto]
  | |- invariant _ _ (raise _) => apply invariant_raise; solve [auto]
  | |- invariant _ _ (if ?b then _ else _) => destruct b
  | |- invariant _ _ (match ?o with Some _ => _ | None => _ end) => destruct o
  end.

Ltac env_auto := repeat env_step.

Lemma process_message_from_env (self : CointipBot) (m : Message) (w0 : World) :
  invariant (later w0) (from_env w0) (process_message self m).
Proof.
  unfold process_message, ctb_misc.praw_call, ctb_action.check_action,
    ctb_action.do, ctb_user.tell, mark_as_read, log.
  env_auto.
Qed.

Lemma check_inbox_try_from_env (self : CointipBot) (w0 : World) :
  invariant (later w0) (from_env w0) (check_inbox_try self).
Proof.
  unfold check_inbox_try, ctb_misc.praw_call, get_unread.
  env_auto.
  apply invariant_for_each. intros m _. apply process_message_from_env.
Qed.

Lemma check_inbox_from_env (self : CointipBot) (w0 : World) :
  invariant (later w0) (fun e => from_env w0 e /\ is_Exception e = false)
            (check_inbox self).
Proof.
  unfold check_inbox, log.
  apply invariant_bind; [apply invariant_modify; script_kept|]. intros _.
  apply invariant_bind; [|intros _; env_auto].
  apply (invariant_try_except (later w0) (from_env w0)).
  - apply check_inbox_try_from_env.
  - intros e h He Hh. unfold check_inbox_handlers in Hh.
    destruct (is_transient e).
    + inversion Hh. subst h. unfold log, sleep. env_auto.
    + destruct (is_Exception e); [|discriminate Hh].
      inversion Hh. subst h. unfold log. env_auto.
  - intros e He Hh. unfold check_inbox_handlers in Hh.
    destruct (is_transient e); [discriminate Hh|].
    destruct (is_Exception e); [discriminate Hh|]. auto.
Qed.

Lemma check_inbox_value (self : CointipBot) (w w' : World) (b : bool) :
  check_inbox self w = (inr b, w') -> b = true.
Proof.
  unfold check_inbox, bind, log, modify, ret.
  destruct (try_except _ _ _) as [[e|[]] w1]; intros H; inversion H; reflexivity.
Qed.

(** X1.  Whatever the environment does, [check_inbox] either returns
    [True] or is left by an exception that is not an [Exception] and that
    the environment itself raised: no [Exception], transient or not, ever
    gets out of it. *)
Theorem check_inbox_lets_no_Exception_out (self : CointipBot) (w : World) :
  (exists w', check_inbox self w = (inr true, w'))
  \/ (exists e w',
         check_inbox self w = (inl e, w')
         /\ is_Exception e = false
         /\ from_env w e).
Proof.
  pose proof (invariant_run _ _ (check_inbox self) w
                (check_inbox_from_env self w) (later_refl w)) as [_ He].
  destruct (check_inbox self w) as [[e|b] w'] eqn:E.
  - right. exists e, w'. destruct (He e eq_refl) as [H1 H2]. auto.
  - left. exists w'. rewrite (check_inbox_value self w w' b E). reflexivity.
Qed.

Lemma expire_from_env (a : Action) (w0 : World) :
  invariant (later w0)
            (fun e => from_env w0 e \/ e = Exception "InvalidStateTransition")
            (ctb_action.expire a).
Proof.
  unfold ctb_action.expire, ctb_action.transition.
  env_auto.
Qed.

Lemma expire_pending_tips_from_env (self : CointipBot) (w0 : World) :
  invariant (later w0)
            (fun e => from_env w0 e \/ e = Exception "InvalidStateTransition")
            (expire_pending_tips self).
Proof.
  unfold expire_pending_tips, ctb_action.get_actions.
  env_auto.
  apply invariant_for_acc. intros acc x _.
  apply invariant_bind; [apply expire_from_env|]. intros _. env_auto.
Qed.

Lemma main_try_from_env (self : CointipBot) (w0 : World) :
  invariant (later w0)
            (fun e => from_env w0 e \/ e = Exception "InvalidStateTransition")
            (main_try self).
Proof.
  unfold main_try, log, sleep.
  apply invariant_bind; [apply invariant_modify; script_kept|]. intros _.
  apply invariant_bind; [apply expire_pending_tips_from_env|]. intros _.
  apply invariant_bind.
  - apply (invariant_weaken _ _ _ _ (check_inbox_from_env self w0)).
    intros e [He _]. left. exact He.
  - intros _. env_auto.
Qed.

(** The handler of [main]: it ends in [sys.exit(1)] unless the
    notification raises. *)
Lemma main_handler_ends (self : CointipBot) (w0 : World) :
  hoare (later w0)
        (bind (log ERROR "main(): exception: %s") (fun _ =>
         bind (log ERROR "main(): traceback: %s") (fun _ =>
         bind (if misc_notify_enabled (conf self) then notify else ret tt)
              (fun _ => @sys_exit unit 1))))
        (fun _ => later w0)
        (fun e w' => later w0 w' /\ main_ends self w0 w' e).
Proof.
  intros w Hl.
  unfold main_ends, exited_by_handler, raised_by_notify, handler_logs.
  cbv beta iota delta [bind log modify notify upstream sys_exit raise ret].
  destruct (misc_notify_enabled (conf self)) eqn:Hn.
  - cbn [faults emit]. destruct (faults w) as [|[e|] fs] eqn:Hf.
    + split; [apply (later_same_script _ w _ Hl); reflexivity|].
      left. split; [reflexivity|]. exists (trace w). cbn [trace emit].
      rewrite <- !app_assoc. reflexivity.
    + split; [exact (later_step w0 w (Some e) fs Hl Hf)|].
      destruct (is_Exception e) eqn:He.
      * right. right. split; [reflexivity|]. split; [reflexivity|]. split.
        -- exists (trace w). cbn [trace emit with_faults].
           rewrite <- !app_assoc. reflexivity.
        -- destruct Hl as [used Hu]. exists used. cbn [faults with_faults].
           rewrite Hu, Hf. reflexivity.
      * right. left. split; [reflexivity|].
        exact (later_from_env w0 w e fs Hl Hf).
    + split; [exact (later_step w0 w None fs Hl Hf)|].
      left. split; [reflexivity|]. exists (trace w). cbn [trace emit with_faults].
      rewrite <- !app_assoc. reflexivity.
  - split; [apply (later_same_script _ w _ Hl); reflexivity|].
    left. split; [reflexivity|]. exists (trace w). cbn [trace emit].
    rewrite <- !app_assoc. reflexivity.
Qed.

Lemma main_iteration_ends (self : CointipBot) (w0 : World) :
  hoare (later w0) (main_iteration self) (fun _ => later w0)
        (fun e w' => later w0 w' /\ main_ends self w0 w' e).
Proof.
  unfold main_iteration.
  apply hoare_try_except
    with (X' := fun e w => later w0 w
                  /\ (from_env w0 e \/ e = Exception "InvalidStateTransition")).
  - exact (main_try_from_env self w0).
  - intros e h Hh. unfold main_handlers in Hh.
    destruct (is_Exception e); [|discriminate Hh].
    inversion Hh. subst h.
    eapply hoare_conseq; [exact (main_handler_ends self w0)| |auto|auto].
    intros w [Hl _]. exact Hl.
  - intros e w Hh [Hl He]. unfold main_handlers in Hh.
    destruct (is_Exception e) eqn:HE; [discriminate Hh|].
    split; [exact Hl|]. right. left. split; [exact HE|].
    destruct He as [He|He]; [exact He|subst e; discriminate HE].
Qed.

Lemma main_ends_spec (self : CointipBot) (w0 : World) (fuel : nat) :
  hoare (later w0) (main self fuel) (fun _ => later w0)
        (fun e w' => later w0 w' /\ main_ends self w0 w' e).
Proof.
  induction fuel as [|n IH]; cbn [main].
  - apply hoare_ret. auto.
  - eapply hoare_bind; [exact (main_iteration_ends self w0)|]. intros ?. exact IH.
Qed.

(** X2.  However many turns it runs and whatever fails, [main] is left in
    three ways only.  By its own [sys.exit(1)], at the end of its handler:
    the last things it did are the handler's two logs and, if enabled, the
    notification.  By an exception that is not an [Exception], raised by
    the environment.  Or by an [Exception] that the notification itself
    raised: notifications are enabled, the handler's two logs are the last
    thing that happened, and the exception is the entry of the script that
    was used up last.  So no [Exception] of the sweep or of the inbox ever
    leaves [main]: the handler covers them all. *)
Theorem main_ends_by_exit_or_environment
        (self : CointipBot) (fuel : nat) (w w' : World) (e : exn) :
  main self fuel w = (inl e, w') ->
  (e = SystemExit 1 /\ exited_by_handler self w')
  \/ (is_Exception e = false /\ from_env w e)
  \/ (is_Exception e = true /\ raised_by_notify self w w' e).
Proof.
  intros H.
  pose proof (main_ends_spec self w fuel w (later_refl w)) as S.
  rewrite H in S. exact (proj2 S).
Qed.

Lemma main_ends_by_exit_or_environment_witness :
  (ConnectionError = SystemExit 1
   /\ exited_by_handler Sample.bot0 (snd (main Sample.bot0 3 SampleX.mail_down)))
  \/ (is_Exception ConnectionError = false
      /\ from_env SampleX.mail_down ConnectionError)
  \/ (is_Exception ConnectionError = true
      /\ raised_by_notify Sample.bot0 SampleX.mail_down
                          (snd (main Sample.bot0 3 SampleX.mail_down))
                          ConnectionError).
Proof.
  exact (@main_ends_by_exit_or_environment Sample.bot0 3 SampleX.mail_down
           (snd (main Sample.bot0 3 SampleX.mail_down)) ConnectionError eq_refl).
Defined.

(* ================================================================== *)
(** ** What stays as it is *)

Ltac field_kept :=
  let w := fresh "w" in
  let H := fresh "H" in
  intros w H;
  try match goal with
      | |- context [executor ?s ?a ?b] => destruct (executor s a b)
      end;
  exact H.

Ltac keep_step :=
  match goal with
  | |- invariant _ _ (ret _) => apply invariant_ret
  | |- invariant _ _ (gets _) => apply invariant_gets
  | |- invariant _ _ (bind _ _) => apply invariant_bind; [|intros ?]
  | |- invariant _ _ (modify _) => apply invariant_modify; field_kept
  | |- invariant _ _ upstream =>
      apply invariant_upstream;
      [ let H := fresh in intros ? ? H _; exact H
      | let H := fresh in intros ? ? ? H _; split; [exact H|exact I] ]
  | |- invariant _ _ (raise _) => apply invariant_raise; exact I
  | |- invariant _ _ (if ?b then _ else _) => destruct b
  | |- invariant _ _ (match ?o with Some _ => _ | None => _ end) => destruct o
  end.

Ltac keep_auto := repeat keep_step.

Ltac open_message :=
  unfold process_message, ctb_misc.praw_call, ctb_action.check_action,
    ctb_action.do, ctb_user.tell, mark_as_read, log.

Lemma process_message_keeps_clock (self : CointipBot) (m : Message) (c : Z) :
  invariant (fun w => clock w = c) (fun _ => True) (process_message self m).
Proof. open_message. keep_auto. Qed.

Lemma process_message_keeps_users (self : CointipBot) (m : Message) (u : list string) :
  invariant (fun w => t_users w = u) (fun _ => True) (process_message self m).
Proof. open_message. keep_auto. Qed.

(** A message that matches no pattern is never executed. *)
Lemma unmatched_keeps_ledger (self : CointipBot) (m : Message) (L : list Action) :
  parsed self m = None ->
  invariant (fun w => t_action w = L) (fun _ => True) (process_message self m).
Proof.
  intros Hp. open_message. unfold parsed in Hp. rewrite Hp. keep_auto.
Qed.

Lemma unmatched_keeps_balances (self : CointipBot) (m : Message)
      (b : list (string * float)) :
  parsed self m = None ->
  invariant (fun w => balances w = b) (fun _ => True) (process_message self m).
Proof.
  intros Hp. open_message. unfold parsed in Hp. rewrite Hp. keep_auto.
Qed.

Lemma hoare_of_invariant {A : Type} (I : World -> Prop) (E : exn -> Prop) (c : M A)
      (Q : A -> World -> Prop) (X : exn -> World -> Prop) :
  invariant I E c ->
  (forall a w, I w -> Q a w) ->
  (forall e w, I w -> X e w) ->
  hoare I c Q X.
Proof.
  intros H HQ HX. eapply hoare_conseq; [exact H|auto|auto|].
  intros e w [Hi _]. auto.
Qed.

(* ================================================================== *)
(** ** The ledger under failures *)

(** Handling one message, whatever fails on the way, leaves the ledger as
    it is or adds one row for that message, and the latter only when the
    message had none. *)
Lemma process_message_grows (self : CointipBot) (m : Message) (w : World) :
  grows_by (m_id m) (t_action w) (t_action (snd (process_message self m w))).
Proof.
  set (L := t_action w).
  set (Gd := fun L' : list Action => L' = L /\ existsb (has_id (m_id m)) L = false).
  set (Gg := grows_by (m_id m) L).
  assert (Hdg : forall L', Gd L' -> Gg L').
  { intros L' [H _]. left. exact H. }
  assert (H : hoare (fun w => t_action w = L) (process_message self m)
                    (fun _ w' => Gg (t_action w')) (fun _ w' => Gg (t_action w'))).
  { open_message.
    destruct (m_author m) as [author|].
    - eapply hoare_bind with (R := fun _ w => t_action w = L).
      { apply hoare_modify. intros w0 H0. exact H0. }
      intros _.
      eapply hoare_bind
        with (R := fun dup w => t_action w = L
                                /\ dup = existsb (has_id (m_id m)) L).
      { eapply hoare_bind with (R := fun _ w => t_action w = L).
        - apply hoare_upstream.
          + intros w0 H0 _. exact H0.
          + intros w0 fs H0 _. exact H0.
          + intros w0 e fs H0 _. left. exact H0.
        - intros _. apply hoare_gets. intros w0 H0. split; [exact H0|].
          unfold has_id. rewrite H0. reflexivity. }
      intros dup. destruct dup.
      + apply hoare_of_invariant
          with (I := fun w => t_action w = L /\ true = existsb (has_id (m_id m)) L)
               (E := fun _ => True).
        * keep_auto.
        * intros _ w0 [H0 _]. left. exact H0.
        * intros _ w0 [H0 _]. left. exact H0.
      + eapply hoare_conseq
          with (P' := fun w => Gd (t_action w))
               (Q' := fun _ w => Gg (t_action w))
               (X' := fun _ w => Gg (t_action w)); auto.
        2:{ intros w0 [H0 H1]. split; [exact H0|]. symmetry. exact H1. }
        destruct (String.eqb (lower author) (lower (reddit_auth_user (conf self)))).
        { apply hoare_of_invariant
            with (I := fun w => Gd (t_action w)) (E := fun _ => True);
            [keep_auto| |]; intros; apply Hdg; assumption. }
        eapply hoare_bind with (R := fun _ w => Gd (t_action w)).
        { apply hoare_of_invariant
            with (I := fun w => Gd (t_action w)) (E := fun _ => True);
            [keep_auto| |]; intros; auto. }
        intros is_banned. destruct is_banned.
        { apply hoare_of_invariant
            with (I := fun w => Gd (t_action w)) (E := fun _ => True);
            [keep_auto| |]; intros; apply Hdg; assumption. }
        eapply hoare_bind with (R := fun _ w => Gg (t_action w)).
        2:{ intros _. apply hoare_of_invariant
              with (I := fun w => Gg (t_action w)) (E := fun _ => True);
              [keep_auto| |]; intros; assumption. }
        change (if m_was_comment m then ctb_action.eval_comment m self
                else ctb_action.eval_message m self) with (parsed self m).
        destruct (parsed self m) as [a|] eqn:Hp.
        * eapply hoare_bind with (R := fun _ w => Gd (t_action w)).
          { apply hoare_modify. intros w0 H0. exact H0. }
          intros _.
          eapply hoare_bind with (R := fun _ w => Gd (t_action w)).
          { apply hoare_modify. intros w0 H0. exact H0. }
          intros _.
          eapply hoare_bind with (R := fun _ w => Gd (t_action w)).
          { apply hoare_upstream.
            - intros w0 H0 _. exact H0.
            - intros w0 fs H0 _. exact H0.
            - intros w0 e fs H0 _. apply Hdg. exact H0. }
          intros _. apply hoare_modify. intros w0 [H0 H1].
          destruct (executor self a (balances w0)) as [st b'].
          cbn [t_action emit with_balances with_t_action].
          right. split; [exact H1|]. eexists. split; [|rewrite H0; reflexivity].
          cbn [a_msg_id]. rewrite (parsed_msg self m a Hp). reflexivity.
        * apply hoare_of_invariant
            with (I := fun w => Gd (t_action w)) (E := fun _ => True);
            [keep_auto| |]; intros; apply Hdg; assumption.
    - apply hoare_of_invariant
        with (I := fun w => t_action w = L) (E := fun _ => True);
        [keep_auto| |]; intros ? w0 H0; left; exact H0. }
  specialize (H w eq_refl).
  destruct (process_message self m w) as [[e|[]] w']; exact H.
Qed.

Lemma no_row_no_id (msg_id : string) (L : list Action) :
  existsb (has_id msg_id) L = false -> ~ In msg_id (map a_msg_id L).
Proof.
  intros H Hin. apply in_map_iff in Hin. destruct Hin as (a & Ha & Hin).
  assert (existsb (has_id msg_id) L = true); [|congruence].
  apply existsb_exists. exists a. split; [exact Hin|].
  unfold has_id. apply String.eqb_eq. exact Ha.
Qed.

Lemma NoDup_snoc (l : list string) (x : string) :
  NoDup l -> ~ In x l -> NoDup (l ++ [x]).
Proof.
  induction l as [|y l IH]; intros Hnd Hx; cbn.
  - constructor; [intros []|constructor].
  - inversion Hnd as [|z zs Hy Hl]; subst. constructor.
    + intros Hin. apply in_app_or in Hin. destruct Hin as [Hin|[Hin|[]]].
      * exact (Hy Hin).
      * apply Hx. left. symmetry. exact Hin.
    + apply IH; [exact Hl|]. intros Hin. apply Hx. right. exact Hin.
Qed.

Lemma grown_mono (L0 : list Action) (n n' : nat) (w : World) :
  (n <= n')%nat -> grown L0 n w -> grown L0 n' w.
Proof.
  intros Hn (added & Ht & Hl & Hnd). exists added. repeat split; auto. lia.
Qed.

Lemma grown_step (L0 : list Action) (n : nat) (msg_id : string) (w w' : World) :
  grown L0 n w ->
  grows_by msg_id (t_action w) (t_action w') ->
  grown L0 (S n) w'.
Proof.
  intros (added & Ht & Hl & Hnd) [Hsame|(Hno & row & Hid & Happ)].
  - exists added. rewrite Hsame. repeat split; auto.
  - exists (added ++ [row])%list. rewrite Happ, Ht, <- app_assoc.
    split; [reflexivity|]. split.
    + rewrite length_app. cbn. lia.
    + intros H0. rewrite app_assoc, map_app. cbn [map].
      apply NoDup_snoc; [exact (Hnd H0)|].
      rewrite Hid, <- Ht. apply no_row_no_id. exact Hno.
Qed.

Lemma for_each_message_grown (self : CointipBot) (L0 : list Action)
      (ms : list Message) :
  forall n,
    hoare (grown L0 n) (for_each ms (process_message self))
          (fun _ => grown L0 (n + List.length ms))
          (fun _ => grown L0 (n + List.length ms)).
Proof.
  induction ms as [|m ms IH]; intros n; cbn [for_each List.length].
  - apply hoare_ret. intros w H. rewrite Nat.add_0_r. exact H.
  - eapply hoare_bind with (R := fun _ => grown L0 (S n)).
    + intros w H.
      pose proof (grown_step L0 n (m_id m) w _ H (process_message_grows self m w)) as G.
      destruct (process_message self m w) as [[e|[]] w']; cbn [snd] in G.
      * apply (grown_mono L0 (S n)); [lia|exact G].
      * exact G.
    + intros _. eapply hoare_conseq; [apply (IH (S n))|auto| |];
        intros ? w H; apply (grown_mono L0 (S n + List.length ms)); auto; lia.
Qed.

Lemma check_inbox_grown (self : CointipBot) (L0 : list Action) :
  hoare (grown L0 0) (check_inbox self)
        (fun _ => grown L0 (reddit_scan_batch_limit (conf self)))
        (fun _ => grown L0 (reddit_scan_batch_limit (conf self))).
Proof.
  set (limit := reddit_scan_batch_limit (conf self)).
  assert (Hmono : forall w, grown L0 0 w -> grown L0 limit w).
  { intros w. apply grown_mono. lia. }
  unfold check_inbox, log.
  eapply hoare_bind with (R := fun _ => grown L0 0).
  { apply hoare_modify. intros w H. exact H. }
  intros _.
  eapply hoare_bind with (R := fun _ => grown L0 limit).
  2:{ intros _. apply hoare_of_invariant
        with (I := grown L0 limit) (E := fun _ => True); [keep_auto| |]; auto. }
  eapply hoare_try_except with (X' := fun _ => grown L0 limit).
  - unfold check_inbox_try, ctb_misc.praw_call, get_unread.
    eapply hoare_bind
      with (R := fun ms w => grown L0 0 w /\ (List.length ms <= limit)%nat).
    + eapply hoare_bind with (R := fun _ => grown L0 0).
      * apply hoare_of_invariant
          with (I := grown L0 0) (E := fun _ => True); [keep_auto| |]; auto.
      * intros _. eapply hoare_bind with (R := fun _ => grown L0 0).
        { apply hoare_modify. intros w H. exact H. }
        intros _. apply hoare_gets. intros w H. split; [exact H|].
        apply firstn_le_length.
    + intros ms. intros w [H Hlen].
      pose proof (for_each_message_grown self L0 (rev ms) 0 w H) as G.
      rewrite length_rev in G. cbn [Nat.add] in G.
      destruct (for_each (rev ms) (process_message self) w) as [[e|[]] w'];
        apply (grown_mono L0 (List.length ms)); auto.
  - intros e h Hh. unfold check_inbox_handlers in Hh.
    destruct (is_transient e).
    + inversion Hh. subst h. unfold log, sleep.
      apply hoare_of_invariant
        with (I := grown L0 limit) (E := fun _ => True); [keep_auto| |]; auto.
    + destruct (is_Exception e); [|discriminate Hh].
      inversion Hh. subst h. unfold log.
      apply hoare_of_invariant
        with (I := grown L0 limit) (E := fun _ => True); [keep_auto| |]; auto.
  - intros e w _ H. exact H.
Qed.

Lemma grown_start (w : World) : grown (t_action w) 0 w.
Proof.
  exists []. rewrite app_nil_r. repeat split; auto.
Qed.

(** X3.  Whatever fails, a poll of the inbox only appends to the ledger:
    the rows it found are still there, unchanged and in place, at most
    [batch_limit] rows have been added, and if message ids were unique in
    the ledger they still are. *)
Theorem check_inbox_only_appends (self : CointipBot) (w : World) :
  exists added,
    t_action (snd (check_inbox self w)) = (t_action w ++ added)%list
    /\ (List.length added <= reddit_scan_batch_limit (conf self))%nat
    /\ (NoDup (map a_msg_id (t_action w))
        -> NoDup (map a_msg_id (t_action w ++ added))).
Proof.
  pose proof (check_inbox_grown self (t_action w) w (grown_start w)) as H.
  destruct (check_inbox self w) as [[e|b] w']; exact H.
Qed.

(* ================================================================== *)
(** ** The expiry sweep under failures *)

Lemma kept_or_expired_refl (p : Action -> bool) (L : list Action) :
  Forall2 (kept_or_expired p) L L.
Proof.
  induction L as [|a L IH]; constructor; [left; reflexivity|exact IH].
Qed.

Lemma kept_or_expired_ids (p : Action -> bool) (L L' : list Action) :
  Forall2 (kept_or_expired p) L L' -> map a_msg_id L' = map a_msg_id L.
Proof.
  induction 1 as [|a a' L L' [H|[_ H]] _ IH]; [reflexivity| |];
    cbn [map]; rewrite IH, H; reflexivity.
Qed.

Lemma expire_update (p : Action -> bool) (msg_id : string) (L1 L : list Action) :
  (forall x, In x L1 -> a_msg_id x = msg_id -> p x = true) ->
  Forall2 (kept_or_expired p) L1 L ->
  Forall2 (kept_or_expired p) L1
          (map (fun r => if String.eqb (a_msg_id r) msg_id
                         then set_state "expired" r else r) L).
Proof.
  intros Hp H. induction H as [|x y L1 L Hxy _ IH]; cbn [map]; constructor.
  - assert (Hid : a_msg_id y = a_msg_id x).
    { destruct Hxy as [H|[_ H]]; rewrite H; reflexivity. }
    destruct (String.eqb (a_msg_id y) msg_id) eqn:E.
    + right. apply String.eqb_eq in E. rewrite Hid in E. split.
      * apply Hp; [left; reflexivity|exact E].
      * destruct Hxy as [H|[_ H]]; rewrite H; reflexivity.
    + exact Hxy.
  - apply IH. intros z Hz. apply Hp. right. exact Hz.
Qed.

(** What the sweep keeps fixed, and how far it may change the ledger. *)
Lemma expire_step_bounded (p : Action -> bool) (L0 : list Action) (a : Action)
      (b : list (string * float)) (u : list Message) (tu : list string) :
  NoDup (map a_msg_id L0) ->
  In a L0 ->
  p a = true ->
  invariant (fun w => Forall2 (kept_or_expired p) L0 (t_action w)
                      /\ balances w = b /\ unread w = u /\ t_users w = tu)
            (fun _ => True)
            (ctb_action.expire a).
Proof.
  intros Hnd Ha Hpa.
  unfold ctb_action.expire, ctb_action.transition.
  keep_auto.
  apply invariant_modify. intros w (H & Hb & Hu & Ht).
  cbn [t_action balances unread t_users with_t_action].
  split; [|auto].
  apply expire_update; [|exact H].
  intros x Hx Hid.
  rewrite (same_id_same_row L0 x a Hnd Hx Ha Hid). exact Hpa.
Qed.

Lemma expire_pending_tips_bounded (self : CointipBot) (w0 : World) :
  NoDup (map a_msg_id (t_action w0)) ->
  hoare (fun w => w = w0) (expire_pending_tips self)
        (fun _ w => Forall2 (kept_or_expired (due self w0)) (t_action w0) (t_action w)
                    /\ balances w = balances w0 /\ unread w = unread w0
                    /\ t_users w = t_users w0)
        (fun _ w => Forall2 (kept_or_expired (due self w0)) (t_action w0) (t_action w)
                    /\ balances w = balances w0 /\ unread w = unread w0
                    /\ t_users w = t_users w0).
Proof.
  intros Hnd.
  set (J := fun w => Forall2 (kept_or_expired (due self w0)) (t_action w0) (t_action w)
                     /\ balances w = balances w0 /\ unread w = unread w0
                     /\ t_users w = t_users w0).
  set (P1 := fun w => t_action w = t_action w0 /\ clock w = clock w0
                      /\ balances w = balances w0 /\ unread w = unread w0
                      /\ t_users w = t_users w0).
  assert (HP1J : forall w, P1 w -> J w).
  { intros w (H1 & _ & H3 & H4 & H5). unfold J. rewrite H1.
    split; [apply kept_or_expired_refl|auto]. }
  unfold expire_pending_tips, ctb_action.get_actions.
  eapply hoare_bind with (R := fun now w => P1 w /\ now = clock w0).
  { apply hoare_gets. intros w H. subst w. unfold P1. repeat split; reflexivity. }
  intros now.
  eapply hoare_bind
    with (R := fun actions w =>
                 J w /\ Forall (fun a => In a (t_action w0)
                                         /\ due self w0 a = true) actions).
  { eapply hoare_bind with (R := fun _ w => P1 w /\ now = clock w0).
    - apply hoare_upstream.
      + intros w H _. exact H.
      + intros w fs H _. exact H.
      + intros w e fs [H _] _. apply HP1J. exact H.
    - intros _. apply hoare_gets. intros w [H Hnow]. split; [apply HP1J, H|].
      destruct H as (H1 & _). rewrite H1, Hnow.
      apply Forall_forall. intros a Ha. apply filter_In in Ha. exact Ha. }
  intros actions.
  eapply hoare_bind with (R := fun _ w => J w).
  2:{ intros counter. apply hoare_ret. auto. }
  intros w [HJ Hall].
  assert (Hloop : invariant J (fun _ => True)
            (for_acc actions 0
               (fun counter a => bind (ctb_action.expire a)
                                      (fun _ => ret (counter + 1))))).
  { apply invariant_for_acc. intros acc a Ha.
    rewrite Forall_forall in Hall. destruct (Hall a Ha) as [Hin Hdue].
    apply invariant_bind.
    - apply (expire_step_bounded (due self w0) (t_action w0) a
               (balances w0) (unread w0) (t_users w0) Hnd Hin Hdue).
    - intros _. apply invariant_ret. }
  specialize (Hloop w HJ).
  destruct (for_acc actions 0 _ w) as [[e|c] w']; [exact (proj1 Hloop)|exact Hloop].
Qed.

(** X4.  On a ledger with unique message ids, whatever fails and wherever
    it fails, the expiry sweep leaves every row as it was or sets it to
    [expired], and the latter only for tips that were due ([givetip],
    [pending], created before the threshold) when it started: it adds and
    removes no row, and touches neither balances nor inbox nor users. *)
Theorem sweep_changes_due_tips_only (self : CointipBot) (w : World) :
  NoDup (map a_msg_id (t_action w)) ->
  let w' := snd (expire_pending_tips self w) in
  Forall2 (kept_or_expired (due self w)) (t_action w) (t_action w')
  /\ balances w' = balances w
  /\ unread w' = unread w
  /\ t_users w' = t_users w.
Proof.
  intros Hnd. cbv zeta.
  pose proof (expire_pending_tips_bounded self w Hnd w eq_refl) as H.
  destruct (expire_pending_tips self w) as [[e|b] w']; exact H.
Qed.

Lemma sweep_changes_due_tips_only_witness :
  let w := SampleX.half_swept_float in
  let w' := snd (expire_pending_tips Sample.bot_float w) in
  Forall2 (kept_or_expired (due Sample.bot_float w)) (t_action w) (t_action w')
  /\ balances w' = balances w
  /\ unread w' = unread w
  /\ t_users w' = t_users w.
Proof.
  apply (@sweep_changes_due_tips_only Sample.bot_float SampleX.half_swept_float).
  repeat constructor; cbn; intuition discriminate.
Defined.

(* ================================================================== *)
(** ** The ledger over the whole run *)

Lemma expire_keeps_ids (a : Action) (v : list string) :
  invariant (fun w => ids w = v) (fun _ => True) (ctb_action.expire a).
Proof.
  unfold ctb_action.expire, ctb_action.transition.
  keep_auto.
  apply invariant_modify. intros w H. unfold ids in *.
  cbn [t_action with_t_action]. rewrite map_map, <- H.
  apply map_ext. intros r. destruct (String.eqb _ _); reflexivity.
Qed.

Lemma expire_pending_tips_keeps_ids (self : CointipBot) (v : list string) :
  invariant (fun w => ids w = v) (fun _ => True) (expire_pending_tips self).
Proof.
  unfold expire_pending_tips, ctb_action.get_actions.
  keep_auto.
  apply invariant_for_acc. intros acc x _.
  apply invariant_bind; [apply expire_keeps_ids|]. intros _. keep_auto.
Qed.

Lemma invariant_on_ids {A : Type} (c : M A) (G : list string -> Prop) :
  (forall v, invariant (fun w => ids w = v) (fun _ => True) c) ->
  invariant (fun w => G (ids w)) (fun _ => True) c.
Proof.
  intros H w Hw. specialize (H (ids w) w eq_refl).
  destruct (c w) as [[e|a] w'].
  - destruct H as [H _]. rewrite H. auto.
  - rewrite H. exact Hw.
Qed.

Lemma ids_grown_start (w : World) : ids_grown (ids w) w.
Proof.
  exists []. rewrite app_nil_r. auto.
Qed.

Lemma check_inbox_ids_grown (self : CointipBot) (I0 : list string) :
  invariant (ids_grown I0) (fun _ => True) (check_inbox self).
Proof.
  intros w (more & Hids & Hnd).
  pose proof (check_inbox_grown self (t_action w) w (grown_start w)) as H.
  assert (G : forall w', grown (t_action w) (reddit_scan_batch_limit (conf self)) w' ->
                         ids_grown I0 w').
  { intros w' (added & Ht & _ & Hnd').
    exists (more ++ map a_msg_id added)%list. unfold ids in *.
    rewrite Ht, map_app, Hids, <- app_assoc. split; [reflexivity|].
    intros H0. rewrite app_assoc, <- Hids, <- map_app.
    apply Hnd'. rewrite Hids. exact (Hnd H0). }
  destruct (check_inbox self w) as [[e|b] w']; [split; [|exact I]|]; apply G, H.
Qed.

Lemma main_iteration_ids_grown (self : CointipBot) (I0 : list string) :
  invariant (ids_grown I0) (fun _ => True) (main_iteration self).
Proof.
  unfold main_iteration.
  apply (invariant_try_except (ids_grown I0) (fun _ => True)).
  - unfold main_try, log, sleep.
    apply invariant_bind; [apply invariant_modify; field_kept|]. intros _.
    apply invariant_bind.
    { apply (invariant_on_ids (expire_pending_tips self)
               (fun i => exists more, i = (I0 ++ more)%list
                                      /\ (NoDup I0 -> NoDup (I0 ++ more)))).
      apply expire_pending_tips_keeps_ids. }
    intros _.
    apply invariant_bind; [apply check_inbox_ids_grown|]. intros _.
    keep_auto.
  - intros e h _ Hh. unfold main_handlers in Hh.
    destruct (is_Exception e); [|discriminate Hh].
    inversion Hh. subst h. unfold log, notify, sys_exit.
    destruct (misc_notify_enabled (conf self)); keep_auto.
  - auto.
Qed.

(** X5.  However many turns [main] runs and whatever fails meanwhile, the
    message ids of the ledger only get longer at the end, and if they were
    unique at the start they are unique at the end: no failure, retry or
    repeated delivery makes the loop record a second action for a message
    or lose one. *)
Theorem main_keeps_message_ids_unique (self : CointipBot) (fuel : nat) (w : World) :
  exists more,
    ids (snd (main self fuel w)) = (ids w ++ more)%list
    /\ (NoDup (ids w) -> NoDup (ids w ++ more)).
Proof.
  assert (H : invariant (ids_grown (ids w)) (fun _ => True) (main self fuel)).
  { induction fuel as [|n IH]; cbn [main].
    - apply invariant_ret.
    - apply invariant_bind; [apply main_iteration_ids_grown|]. intros _. exact IH. }
  exact (proj1 (invariant_run _ _ (main self fuel) w H (ids_grown_start w))).
Qed.

(* ================================================================== *)
(** ** Runs in which nothing fails *)

Lemma later_calm (w w' : World) : later w w' -> faults w = [] -> faults w' = [].
Proof.
  intros [used H] Hf. rewrite Hf in H. symmetry in H.
  apply app_eq_nil in H. tauto.
Qed.

Lemma upstream_calm (G : World -> Prop) :
  invariant (fun w => faults w = [] /\ G w) (fun _ => False) upstream.
Proof.
  intros w [Hf Hg]. unfold upstream. rewrite Hf. split; assumption.
Qed.

Ltac calm_step :=
  match goal with
  | |- invariant _ _ (ret _) => apply invariant_ret
  | |- invariant _ _ (gets _) => apply invariant_gets
  | |- invariant _ _ (bind _ _) => apply invariant_bind; [|intros ?]
  | |- invariant _ _ (modify _) => apply invariant_modify; field_kept
  | |- invariant _ _ upstream => apply upstream_calm
  | |- invariant _ _ (if ?b then _ else _) => destruct b
  | |- invariant _ _ (match ?o with Some _ => _ | None => _ end) => destruct o
  end.

Ltac calm_auto := repeat calm_step.

(** With nothing failing, handling a message raises nothing and takes no
    time. *)
Lemma process_message_calm (self : CointipBot) (m : Message) (c : Z) :
  invariant (fun w => faults w = [] /\ clock w = c) (fun _ => False)
            (process_message self m).
Proof. open_message. calm_auto. Qed.

Lemma check_inbox_calm (self : CointipBot) (c : Z) :
  invariant (fun w => faults w = [] /\ clock w = c) (fun _ => False)
            (check_inbox self).
Proof.
  unfold check_inbox, log.
  apply invariant_bind; [apply invariant_modify; field_kept|]. intros _.
  apply invariant_bind; [|intros _; calm_auto].
  apply (invariant_try_except _ (fun _ => False)).
  - unfold check_inbox_try, ctb_misc.praw_call, get_unread. calm_auto.
    apply invariant_for_each. intros m _. apply process_message_calm.
  - intros e h [].
  - intros e [].
Qed.

Lemma check_inbox_returns (self : CointipBot) (w : World) :
  faults w = [] ->
  exists w',
    check_inbox self w = (inr true, w')
    /\ faults w' = [] /\ clock w' = clock w.
Proof.
  intros Hf.
  pose proof (check_inbox_calm self (clock w) w (conj Hf eq_refl)) as H.
  destruct (check_inbox self w) as [[e|b] w'] eqn:E.
  - destruct H as [_ []].
  - exists w'. rewrite (check_inbox_value self w w' b E). tauto.
Qed.

Lemma expire_pending_tips_keeps_clock (self : CointipBot) (c : Z) :
  invariant (fun w => clock w = c) (fun _ => True) (expire_pending_tips self).
Proof.
  unfold expire_pending_tips, ctb_action.get_actions.
  keep_auto.
  apply invariant_for_acc. intros acc x _.
  unfold ctb_action.expire, ctb_action.transition. keep_auto.
Qed.

(** With nothing failing and unique ids, the sweep returns. *)
Lemma expire_pending_tips_returns (self : CointipBot) (w : World) :
  faults w = [] ->
  NoDup (ids w) ->
  exists w',
    expire_pending_tips self w = (inr (existsb (due self w) (t_action w)), w')
    /\ faults w' = [] /\ clock w' = clock w /\ ids w' = ids w
    /\ t_action w' = map (expire_if (due self w)) (t_action w).
Proof.
  intros Hf Hnd. unfold ids in Hnd.
  set (sel := filter (due self w) (t_action w)).
  assert (Hp : forall a r, In a sel -> In r (t_action w) ->
                 a_msg_id r = a_msg_id a -> a_state r = "pending").
  { intros a r Ha Hr Hid. apply filter_In in Ha. destruct Ha as [Ha Hdue].
    rewrite (same_id_same_row (t_action w) r a Hnd Hr Ha Hid).
    apply (due_iff self w a) in Hdue. tauto. }
  destruct (expire_loop sel w 0 Hf (NoDup_map_filter (due self w) _ Hnd) Hp)
    as (w' & Hrun & Hta & _).
  assert (E : expire_pending_tips self w
              = (inr (existsb (due self w) (t_action w)), w')).
  { unfold expire_pending_tips.
    rewrite (bind_inr _ _ w (clock w) w) by reflexivity.
    rewrite (bind_inr _ _ w sel w)
      by (apply (get_actions_ok "givetip" "pending" _ w Hf)).
    rewrite (bind_inr _ _ w _ w' Hrun).
    unfold ret, sel. rewrite counter_positive. reflexivity. }
  exists w'.
  split; [exact E|].
  pose proof (invariant_run _ _ (expire_pending_tips self) w
                (expire_pending_tips_from_env self w) (later_refl w)) as [Hl _].
  pose proof (invariant_run _ _ (expire_pending_tips self) w
                (expire_pending_tips_keeps_clock self (clock w)) eq_refl) as [Hc _].
  pose proof (invariant_run _ _ (expire_pending_tips self) w
                (expire_pending_tips_keeps_ids self (ids w)) eq_refl) as [Hi _].
  rewrite E in Hl, Hc, Hi. cbn [snd] in Hl, Hc, Hi.
  split; [exact (later_calm w w' Hl Hf)|]. split; [exact Hc|]. split; [exact Hi|].
  rewrite Hta. apply map_ext_in. intros r Hr.
  unfold expire_if, id_among.
  destruct (due self w r) eqn:Hdue.
  - replace (existsb _ _) with true; [reflexivity|].
    symmetry. apply existsb_exists. exists (a_msg_id r).
    split; [|apply String.eqb_refl].
    apply in_map. apply filter_In. auto.
  - replace (existsb _ _) with false; [reflexivity|].
    symmetry.
    destruct (existsb (String.eqb (a_msg_id r)) (map a_msg_id sel)) eqn:Ex;
      [|reflexivity].
    apply existsb_exists in Ex. destruct Ex as (i & Hi' & Heq).
    apply String.eqb_eq in Heq. apply in_map_iff in Hi'.
    destruct Hi' as (a & Hai & Ha). apply filter_In in Ha.
    destruct Ha as [Ha Hda]. subst i.
    rewrite (same_id_same_row (t_action w) r a Hnd Hr Ha Heq) in Hdue.
    congruence.
Qed.

Lemma main_iteration_calm (self : CointipBot) (w : World) :
  faults w = [] ->
  NoDup (ids w) ->
  exists w',
    main_iteration self w = (inr tt, w')
    /\ faults w' = []
    /\ NoDup (ids w')
    /\ clock w' = clock w + misc_times_sleep_seconds (conf self).
Proof.
  intros Hf Hnd.
  set (w1 := emit (EvLog DEBUG "main(): beginning main() iteration") w).
  destruct (expire_pending_tips_returns self w1 Hf Hnd)
    as (w2 & Hexp & Hf2 & Hc2 & Hi2 & _).
  destruct (check_inbox_returns self w2 Hf2) as (w3 & Hin & Hf3 & Hc3).
  pose proof (check_inbox_ids_grown self (ids w2) w2 (ids_grown_start w2)) as Hg.
  rewrite Hin in Hg. destruct Hg as (more & Hids & Hnd3).
  eexists. split.
  - unfold main_iteration, try_except, main_try.
    unfold bind at 1. unfold log at 1, modify at 1. fold w1.
    unfold bind at 1. rewrite Hexp.
    unfold bind at 1. rewrite Hin.
    unfold bind, log, sleep, modify. reflexivity.
  - cbn [faults clock emit with_clock]. split; [exact Hf3|]. split.
    + change (NoDup (ids w3)). rewrite Hids. apply Hnd3.
      rewrite Hi2. exact Hnd.
    + rewrite Hc3, Hc2. reflexivity.
Qed.

(** X6.  With nothing failing and unique message ids in the ledger, the
    loop never ends by itself: after any number of turns it is still
    running, its clock has advanced by exactly one sleep interval per turn,
    and the ids are still unique. *)
Theorem main_runs_on_when_nothing_fails (self : CointipBot) (fuel : nat) :
  forall w,
    faults w = [] ->
    NoDup (ids w) ->
    exists w',
      main self fuel w = (inr tt, w')
      /\ clock w' = clock w + Z.of_nat fuel * misc_times_sleep_seconds (conf self)
      /\ faults w' = []
      /\ NoDup (ids w').
Proof.
  induction fuel as [|n IH]; intros w Hf Hnd.
  - exists w. cbn [main]. unfold ret. repeat split; auto. cbn. lia.
  - destruct (main_iteration_calm self w Hf Hnd) as (w1 & Hrun & Hf1 & Hnd1 & Hc1).
    destruct (IH w1 Hf1 Hnd1) as (w' & Hrest & Hc' & Hf' & Hnd').
    exists w'. cbn [main]. unfold bind. rewrite Hrun.
    split; [exact Hrest|]. split; [|auto].
    rewrite Hc', Hc1. lia.
Qed.

Lemma main_runs_on_when_nothing_fails_witness :
  let w := Sample.world [Sample.from_self; Sample.tip; Sample.hello]
                        [Sample.old_tip] [] in
  exists w',
    main Sample.bot0 3 w = (inr tt, w')
    /\ clock w' = 1000000 + 3 * 60
    /\ faults w' = []
    /\ NoDup (ids w').
Proof.
  refine (@main_runs_on_when_nothing_fails Sample.bot0 3
            (Sample.world [Sample.from_self; Sample.tip; Sample.hello]
                          [Sample.old_tip] []) eq_refl _).
  repeat constructor; cbn; intuition discriminate.
Defined.

(* ================================================================== *)
(** ** The inbox after a poll *)

Lemma hoare_of_calm {A : Type} (I : World -> Prop) (c : M A)
      (Q : A -> World -> Prop) (X : exn -> World -> Prop) :
  invariant I (fun _ => False) c ->
  (forall a w, I w -> Q a w) ->
  hoare I c Q X.
Proof.
  intros H HQ. eapply hoare_conseq; [exact H|auto|auto|].
  intros e w [_ []].
Qed.

Ltac inbox_step U :=
  match goal with
  | |- hoare _ (bind _ _) _ _ =>
      eapply hoare_bind with (R := fun _ w => faults w = [] /\ unread w = U);
      [ apply hoare_of_calm; [calm_auto|auto] | intros ? ]
  | |- hoare _ (if ?b then _ else _) _ _ => destruct b
  | |- hoare _ (match ?o with Some _ => _ | None => _ end) _ _ => destruct o
  | |- hoare _ (modify _) _ _ =>
      let Hf := fresh in let Hu := fresh in
      apply hoare_modify; intros ? [Hf Hu];
      cbn [faults unread emit with_unread]; rewrite Hu; split; [exact Hf|reflexivity]
  end.

(** With nothing failing, handling a message ends by taking it, and every
    other item with its id, out of the inbox. *)
Lemma process_message_marks_read (self : CointipBot) (m : Message)
      (U : list Message) :
  hoare (fun w => faults w = [] /\ unread w = U) (process_message self m)
        (fun _ w => faults w = [] /\ unread w = without m U)
        (fun _ _ => False).
Proof.
  open_message. unfold without. repeat inbox_step U.
Qed.

Lemma for_each_marks_read (self : CointipBot) (ms : list Message) :
  forall U,
    hoare (fun w => faults w = [] /\ unread w = U)
          (for_each ms (process_message self))
          (fun _ w => faults w = []
                      /\ unread w = fold_left (fun inbox m => without m inbox) ms U)
          (fun _ _ => False).
Proof.
  induction ms as [|m ms IH]; intros U; cbn [for_each fold_left].
  - apply hoare_ret. auto.
  - eapply hoare_bind; [apply process_message_marks_read|].
    intros ?. apply IH.
Qed.

Lemma without_all (ms : list Message) :
  forall U,
    fold_left (fun inbox m => without m inbox) ms U
    = filter (fun x => negb (existsb (fun m => String.eqb (m_id x) (m_id m)) ms)) U.
Proof.
  induction ms as [|m ms IH]; intros U; cbn [fold_left existsb].
  - rewrite <- (filter_ext (fun _ => true)) by reflexivity.
    induction U as [|x U IHU]; cbn; [reflexivity|]. rewrite <- IHU. reflexivity.
  - rewrite IH. unfold without.
    induction U as [|x U IHU]; cbn [filter]; [reflexivity|].
    destruct (String.eqb (m_id x) (m_id m)); cbn [negb orb filter].
    + exact IHU.
    + destruct (existsb _ ms); cbn [negb]; rewrite IHU; reflexivity.
Qed.

Lemma existsb_rev {A : Type} (p : A -> bool) (l : list A) :
  existsb p (rev l) = existsb p l.
Proof.
  destruct (existsb p l) eqn:E.
  - apply existsb_exists in E. destruct E as (x & Hx & Hp).
    apply existsb_exists. exists x. split; [apply in_rev in Hx; exact Hx|exact Hp].
  - destruct (existsb p (rev l)) eqn:E'; [|reflexivity].
    apply existsb_exists in E'. destruct E' as (x & Hx & Hp).
    apply in_rev in Hx.
    assert (existsb p l = true) by (apply existsb_exists; eauto). congruence.
Qed.

(** X7.  After a poll in which nothing failed, the inbox holds exactly the
    items it held before whose id is not that of a fetched message: every
    fetched message has been marked read, and nothing else has. *)
Theorem poll_empties_the_batch (self : CointipBot) (w : World) :
  faults w = [] ->
  exists w',
    check_inbox self w = (inr true, w')
    /\ unread w' = filter (fun x => negb (was_fetched self w x)) (unread w).
Proof.
  intros Hf.
  assert (H : hoare (fun w1 => faults w1 = [] /\ unread w1 = unread w)
                    (check_inbox self)
                    (fun _ w' => unread w'
                                 = filter (fun x => negb (was_fetched self w x)) (unread w))
                    (fun _ _ => False)).
  { unfold check_inbox, log.
    eapply hoare_bind
      with (R := fun _ w1 => faults w1 = [] /\ unread w1 = unread w).
    { apply hoare_modify. auto. }
    intros _.
    eapply hoare_bind
      with (R := fun _ w1 =>
                   faults w1 = []
                   /\ unread w1
                      = filter (fun x => negb (was_fetched self w x)) (unread w)).
    2:{ intros _. eapply hoare_bind
          with (R := fun _ w1 =>
                       faults w1 = []
                       /\ unread w1
                          = filter (fun x => negb (was_fetched self w x)) (unread w)).
        - apply hoare_modify. auto.
        - intros _. apply hoare_ret. tauto. }
    eapply hoare_try_except with (X' := fun _ _ => False).
    - unfold check_inbox_try, ctb_misc.praw_call, get_unread.
      eapply hoare_bind
        with (R := fun ms w1 => (faults w1 = [] /\ unread w1 = unread w)
                                /\ ms = fetched self w).
      + eapply hoare_bind
          with (R := fun _ w1 => faults w1 = [] /\ unread w1 = unread w).
        { apply hoare_of_calm; [calm_auto|auto]. }
        intros _. eapply hoare_bind
          with (R := fun _ w1 => faults w1 = [] /\ unread w1 = unread w).
        { apply hoare_modify. auto. }
        intros _. apply hoare_gets. intros w1 [H1 H2]. split; [auto|].
        unfold fetched. rewrite H2. reflexivity.
      + intros ms w1 [H1 Hms].
        pose proof (for_each_marks_read self (rev ms) (unread w) w1 H1) as G.
        destruct (for_each (rev ms) (process_message self) w1) as [[e|[]] w2];
          [exact G|].
        destruct G as [G1 G2]. split; [exact G1|].
        rewrite G2, without_all. subst ms. unfold was_fetched.
        apply filter_ext. intros x. rewrite existsb_rev. reflexivity.
    - intros e h _ w1 [].
    - intros e w1 _ []. }
  specialize (H w (conj Hf eq_refl)).
  destruct (check_inbox self w) as [[e|b] w'] eqn:E; [destruct H|].
  exists w'. rewrite (check_inbox_value self w w' b E). auto.
Qed.

Lemma poll_empties_the_batch_witness :
  exists w',
    check_inbox Sample.bot0
      (Sample.world [Sample.from_self; Sample.tip; Sample.hello] [] [])
    = (inr true, w')
    /\ unread w' = [Sample.hello].
Proof.
  exact (@poll_empties_the_batch Sample.bot0
           (Sample.world [Sample.from_self; Sample.tip; Sample.hello] [] [])
           eq_refl).
Defined.

(* ================================================================== *)
(** ** A message whose handling fails *)

Ltac failed_step U :=
  match goal with
  | |- hoare _ (bind _ _) _ _ =>
      eapply hoare_bind with (R := fun _ w => unread w = U);
      [ apply hoare_of_invariant with (E := fun _ => True); [keep_auto|auto|auto]
      | intros ? ]
  | |- hoare _ (if ?b then _ else _) _ _ => destruct b
  | |- hoare _ (match ?o with Some _ => _ | None => _ end) _ _ => destruct o
  | |- hoare _ (modify _) _ _ => apply hoare_modify; intros; exact I
  end.

(** X8.  When the handling of a message raises, the exception is one the
    environment raised, and the message has not been marked read: the inbox
    is as it was, so the message will be fetched again. *)
Theorem failed_message_stays_unread
        (self : CointipBot) (m : Message) (w w' : World) (e : exn) :
  process_message self m w = (inl e, w') ->
  unread w' = unread w /\ from_env w e.
Proof.
  intros Hrun. split.
  - assert (H : hoare (fun w1 => unread w1 = unread w) (process_message self m)
                      (fun _ _ => True) (fun _ w1 => unread w1 = unread w)).
    { open_message. repeat failed_step (unread w). }
    specialize (H w eq_refl). rewrite Hrun in H. exact H.
  - pose proof (invariant_run _ _ (process_message self m) w
                  (process_message_from_env self m w) (later_refl w)) as [_ He].
    apply He. rewrite Hrun. reflexivity.
Qed.

Lemma failed_message_stays_unread_witness :
  unread (snd (process_message Sample.bot0 Sample.tip
                 (Sample.world [Sample.tip] [] [None; Some Timeout])))
  = [Sample.tip]
  /\ from_env (Sample.world [Sample.tip] [] [None; Some Timeout]) Timeout.
Proof.
  exact (@failed_message_stays_unread Sample.bot0 Sample.tip
           (Sample.world [Sample.tip] [] [None; Some Timeout])
           (snd (process_message Sample.bot0 Sample.tip
                   (Sample.world [Sample.tip] [] [None; Some Timeout])))
           Timeout eq_refl).
Defined.

(* ================================================================== *)
(** ** A batch in which nothing matches *)

Lemma unmatched_keeps_money (self : CointipBot) (m : Message) (L : list Action)
      (B : list (string * float)) :
  parsed self m = None ->
  invariant (fun w => t_action w = L /\ balances w = B) (fun _ => True)
            (process_message self m).
Proof.
  intros Hp. open_message. unfold parsed in Hp. rewrite Hp. keep_auto.
Qed.

(** X9.  If none of the messages a poll fetches matches a pattern, the
    poll changes neither the ledger nor any balance, whatever fails and
    whatever replies it sends. *)
Theorem unmatched_batch_moves_no_money (self : CointipBot) (w : World) :
  (forall m, In m (fetched self w) -> parsed self m = None) ->
  let w' := snd (check_inbox self w) in
  t_action w' = t_action w /\ balances w' = balances w.
Proof.
  intros Hnone. cbv zeta.
  set (J := fun w1 => t_action w1 = t_action w /\ balances w1 = balances w).
  assert (H : hoare (fun w1 => J w1 /\ unread w1 = unread w) (check_inbox self)
                    (fun _ => J) (fun _ => J)).
  { unfold check_inbox, log.
    eapply hoare_bind with (R := fun _ w1 => J w1 /\ unread w1 = unread w).
    { apply hoare_modify. auto. }
    intros _.
    eapply hoare_bind with (R := fun _ => J).
    2:{ intros _. apply hoare_of_invariant with (I := J) (E := fun _ => True);
          [keep_auto|auto|auto]. }
    eapply hoare_try_except with (X' := fun _ => J).
    - unfold check_inbox_try, ctb_misc.praw_call, get_unread.
      eapply hoare_bind with (R := fun ms w1 => J w1 /\ ms = fetched self w).
      + eapply hoare_bind with (R := fun _ w1 => J w1 /\ unread w1 = unread w).
        { apply hoare_of_invariant
            with (I := fun w1 => J w1 /\ unread w1 = unread w) (E := fun _ => True);
            [keep_auto|auto|tauto]. }
        intros _.
        eapply hoare_bind with (R := fun _ w1 => J w1 /\ unread w1 = unread w).
        { apply hoare_modify. auto. }
        intros _. apply hoare_gets. intros w1 [H1 H2]. split; [exact H1|].
        unfold fetched. rewrite H2. reflexivity.
      + intros ms w1 [H1 Hms].
        assert (G : invariant J (fun _ => True)
                      (for_each (rev ms) (process_message self))).
        { apply invariant_for_each. intros m Hm.
          apply unmatched_keeps_money. apply Hnone. subst ms.
          apply in_rev. exact Hm. }
        specialize (G w1 H1).
        destruct (for_each (rev ms) (process_message self) w1) as [[e|[]] w2];
          [exact (proj1 G)|exact G].
    - intros e h Hh. unfold check_inbox_handlers in Hh.
      destruct (is_transient e).
      + inversion Hh. subst h. unfold log, sleep.
        apply hoare_of_invariant with (I := J) (E := fun _ => True);
          [keep_auto|auto|auto].
      + destruct (is_Exception e); [|discriminate Hh].
        inversion Hh. subst h. unfold log.
        apply hoare_of_invariant with (I := J) (E := fun _ => True);
          [keep_auto|auto|auto].
    - auto. }
  specialize (H w (conj (conj eq_refl eq_refl) eq_refl)).
  destruct (check_inbox self w) as [[e|b] w']; exact H.
Qed.

Lemma unmatched_batch_moves_no_money_witness :
  let w := Sample.world [Sample.hello; Sample.tip] [Sample.old_tip]
                        [None; None; None; Some ConnectionError] in
  let w' := snd (check_inbox (Sample.mk_bot (SampleX.conf_one)) w) in
  t_action w' = t_action w /\ balances w' = balances w.
Proof.
  apply (@unmatched_batch_moves_no_money (Sample.mk_bot SampleX.conf_one)).
  intros m [Hm|[]]. subst m. reflexivity.
Defined.

(* ================================================================== *)
(** ** Sweeping twice *)

(** Whether a tip is due depends on the world through its clock only. *)
Lemma due_clock (self : CointipBot) (w w1 : World) (a : Action) :
  clock w1 = clock w -> due self w1 a = due self w a.
Proof. intros Hc. unfold due. rewrite Hc. reflexivity. Qed.

Lemma expired_is_not_due (self : CointipBot) (w : World) (a : Action) :
  due self w (set_state "expired" a) = false.
Proof.
  unfold due, ctb_action.selected. cbn [a_state a_type set_state].
  rewrite andb_false_r. reflexivity.
Qed.

(** A tip that is due stays due as the clock advances. *)
Lemma due_earlier (self : CointipBot) (w : World) (c : Z) (a : Action) :
  c <= clock w -> due self (with_clock c w) a = true -> due self w a = true.
Proof.
  unfold due, ctb_action.selected, ctb_action.created_matches.
  cbn [clock with_clock]. intros Hc.
  rewrite !andb_true_iff, !Z.ltb_lt. intros [H1 H2]. split; [exact H1|lia].
Qed.

(** X10.  A tip is expired once and for all.  With nothing failing and
    unique message ids, let a second sweep follow a first one when the
    clock shows [c], whatever time has passed: it expires and counts only
    the tips that were not due at the first sweep and are due now, so
    that after both the ledger is the original one with the tips due at
    either time expired; and if the clock has not advanced it returns
    [False] and leaves the ledger as the first sweep left it. *)
Theorem second_sweep_expires_only_new_tips
        (self : CointipBot) (w : World) (c : Z) :
  faults w = [] ->
  NoDup (ids w) ->
  exists w1 w2,
    expire_pending_tips self w = (inr (existsb (due self w) (t_action w)), w1)
    /\ expire_pending_tips self (with_clock c w1)
       = (inr (existsb (fun a => due self (with_clock c w) a && negb (due self w a))
                       (t_action w)), w2)
    /\ t_action w2
       = map (expire_if (fun a => due self (with_clock c w) a || due self w a))
             (t_action w)
    /\ (c <= clock w ->
        expire_pending_tips self (with_clock c w1) = (inr false, w2)
        /\ t_action w2 = t_action w1).
Proof.
  intros Hf Hnd.
  destruct (expire_pending_tips_returns self w Hf Hnd)
    as (w1 & Hrun1 & Hf1 & Hc1 & Hi1 & Hta1).
  assert (Hnd1 : NoDup (ids (with_clock c w1)))
    by (change (NoDup (ids w1)); rewrite Hi1; exact Hnd).
  destruct (expire_pending_tips_returns self (with_clock c w1) Hf1 Hnd1)
    as (w2 & Hrun2 & _ & _ & _ & Hta2).
  cbn [t_action with_clock] in Hrun2, Hta2.
  assert (Hd : forall a,
             due self (with_clock c w1) (expire_if (due self w) a)
             = due self (with_clock c w) a && negb (due self w a)).
  { intros a. unfold expire_if. destruct (due self w a) eqn:E.
    - rewrite expired_is_not_due, andb_false_r. reflexivity.
    - rewrite andb_true_r. apply due_clock. reflexivity. }
  assert (Hres : existsb (due self (with_clock c w1)) (t_action w1)
                 = existsb (fun a => due self (with_clock c w) a
                                       && negb (due self w a)) (t_action w)).
  { rewrite Hta1. clear - Hd. induction (t_action w) as [|a l IH]; [reflexivity|].
    cbn [map existsb]. rewrite Hd, IH. reflexivity. }
  assert (Hled : t_action w2
                 = map (expire_if (fun a => due self (with_clock c w) a
                                             || due self w a)) (t_action w)).
  { rewrite Hta2, Hta1, map_map. apply map_ext. intros a.
    unfold expire_if at 1. rewrite Hd. unfold expire_if.
    destruct (due self w a) eqn:E.
    - rewrite andb_false_r, orb_true_r. reflexivity.
    - rewrite andb_true_r, orb_false_r. reflexivity. }
  exists w1, w2. split; [exact Hrun1|]. split; [rewrite Hrun2, Hres; reflexivity|].
  split; [exact Hled|].
  intros Hc.
  assert (Hno : forall a, due self (with_clock c w) a && negb (due self w a) = false).
  { intros a. destruct (due self (with_clock c w) a) eqn:E1; [|reflexivity].
    rewrite (due_earlier self w c a Hc E1). reflexivity. }
  split.
  - assert (Hfalse : existsb (fun a => due self (with_clock c w) a
                                            && negb (due self w a)) (t_action w)
                     = false).
    { clear - Hno. induction (t_action w) as [|a l IH]; [reflexivity|].
      cbn [existsb]. rewrite Hno, IH. reflexivity. }
    rewrite Hrun2, Hres, Hfalse. reflexivity.
  - rewrite Hled, Hta1. apply map_ext. intros a. unfold expire_if.
    specialize (Hno a).
    destruct (due self (with_clock c w) a), (due self w a); cbn in *;
      try reflexivity; discriminate Hno.
Qed.

Lemma second_sweep_expires_only_new_tips_witness :
  exists w1 w2,
    expire_pending_tips Sample.bot_float
      (Sample.world [] [Sample.tip_4067; Sample.tip_4068; Sample.done_tip] [])
    = (inr true, w1)
    /\ expire_pending_tips Sample.bot_float (with_clock 1000001 w1) = (inr true, w2)
    /\ t_action w2
       = [set_state "expired" Sample.tip_4067; set_state "expired" Sample.tip_4068;
          Sample.done_tip]
    /\ (1000001 <= 1000000 ->
        expire_pending_tips Sample.bot_float (with_clock 1000001 w1) = (inr false, w2)
        /\ t_action w2 = t_action w1).
Proof.
  refine (@second_sweep_expires_only_new_tips Sample.bot_float
            (Sample.world [] [Sample.tip_4067; Sample.tip_4068; Sample.done_tip] [])
            1000001 eq_refl _).
  repeat constructor; cbn; intuition discriminate.
Defined.

(* ================================================================== *)
(** ** What the start-up checks do before they stop *)




(* ================================================================== *)
(** ** Cells that are not strings *)

(** X12.  [format_value] gives something else than a string in two cases
    only: for a column whose name contains "state", where it hands back the
    stored value as it is, and for a column whose name contains "type",
    where it gives [None].  For every other column the result, when there
    is one, is a string. *)
Theorem only_state_and_type_cells_are_not_strings
        (rt : Runtime) (ctb : CointipBot) (m : Row) (k username : string)
        (compact : bool) (v : value) :
  format_value rt ctb m k username compact = inr v ->
  as_str v = None ->
  (Z.gtb (find k "state") (-1) = true /\ getitem m k = inr v)
  \/ (Z.gtb (find k "type") (-1) = true /\ v = VNone).
Proof.
  unfold format_value. destruct (getitem m k) as [e|x]; [discriminate|].
  cbn [ebind].
  destruct (truthy x); cbn [negb]; [|intros H; inversion H; subst; discriminate].
  destruct (as_float x) as [f|];
    destruct (Z.gtb (find k "coin") (-1));
    try (intros H; inversion H; subst; discriminate);
    (destruct (Z.gtb (find k "user") (-1));
     destruct (as_str x) as [s|] eqn:Hs;
     try (destruct compact; intros H; inversion H; subst; discriminate);
     (destruct (Z.gtb (find k "addr") (-1));
      [ try (intros H; inversion H; subst; discriminate) | ]));
    (destruct (Z.gtb (find k "state") (-1));
     [ destruct (eq_str x "completed");
       intros H; inversion H; subst; try discriminate; intros _; left; auto | ]);
    (destruct (Z.gtb (find k "type") (-1));
     [ destruct (eq_str x "givetip"); [intros H; inversion H; subst; discriminate|];
       destruct compact; [destruct (eq_str x "withdraw")|];
       intros H; inversion H; subst; try discriminate; intros _; right; auto | ]);
    (destruct (Z.gtb (find k "subreddit") (-1));
     [intros H; inversion H; subst; discriminate|]);
    (destruct (Z.gtb (find k "link") (-1));
     [intros H; inversion H; subst; discriminate|]);
    (destruct (Z.gtb (find k "utc") (-1));
     [destruct x; intros H; inversion H; subst; discriminate|]);
    intros H; inversion H; subst; discriminate.
Qed.

Lemma only_state_and_type_cells_are_not_strings_witness :
  (Z.gtb (find "state" "state") (-1) = true
   /\ getitem [("state", VInt 3)] "state" = inr (VInt 3))
  \/ (Z.gtb (find "state" "type") (-1) = true /\ VInt 3 = VNone).
Proof.
  exact (@only_state_and_type_cells_are_not_strings Sample.rt0 Sample.bot0
           [("state", VInt 3)] "state" "" false (VInt 3) eq_refl eq_refl).
Defined.

Lemma strings_of_bad (v : value) (vs : list value) :
  as_str v = None -> In v vs -> exists e, strings_of vs = inl e.
Proof.
  intros Hv. induction vs as [|x vs IH]; intros Hin; [contradiction|].
  destruct Hin as [Hx|Hin].
  - subst x. destruct v; try (eexists; reflexivity). discriminate Hv.
  - destruct (IH Hin) as (e & He). cbn [strings_of].
    destruct x; try (eexists; reflexivity).
    rewrite He. eexists. reflexivity.
Qed.

Lemma format_row_has (rt : Runtime) (ctb : CointipBot) (t : Row) (ks : list string)
      (k : string) (v : value) (vs : list value) :
  In k ks ->
  format_value rt ctb t k "" false = inr v ->
  format_row rt ctb t ks = inr vs ->
  In v vs.
Proof.
  revert vs. induction ks as [|k0 ks IH]; intros vs Hin Hv Hrow; [contradiction|].
  cbn [format_row] in Hrow.
  destruct (format_value rt ctb t k0 "" false) as [e|v0] eqn:E0; [discriminate|].
  cbn [ebind] in Hrow.
  destruct (format_row rt ctb t ks) as [e|vs0] eqn:Er; [discriminate|].
  cbn [ebind] in Hrow. inversion Hrow. subst vs.
  destruct Hin as [Hk|Hin].
  - subst k0. rewrite Hv in E0. inversion E0. left. reflexivity.
  - right. apply (IH vs0 Hin Hv eq_refl).
Qed.

Lemma build_table_bad (rt : Runtime) (ctb : CointipBot) (ks : list string)
      (t : Row) (k : string) (v : value) (ts : list Row) :
  In t ts ->
  In k ks ->
  format_value rt ctb t k "" false = inr v ->
  as_str v = None ->
  forall tip_list, exists e, build_table rt ctb tip_list ks ts = inl e.
Proof.
  intros Ht Hk Hv Hs.
  induction ts as [|t0 ts IH]; intros tip_list; [contradiction|].
  cbn [build_table].
  destruct (format_row rt ctb t0 ks) as [e|vs] eqn:Er; [eexists; reflexivity|].
  cbn [ebind]. unfold join_values.
  destruct Ht as [Ht|Ht].
  - subst t0.
    destruct (strings_of_bad v vs Hs (format_row_has rt ctb t ks k v vs Hk Hv Er))
      as (e & He).
    rewrite He. eexists. reflexivity.
  - destruct (strings_of vs) as [e|ss]; [eexists; reflexivity|].
    cbn [ebind]. apply (IH Ht).
Qed.

(** X13.  One cell that does not format to a string is enough to stop the
    tips page: if the result of the tips query has a row and a column for
    which [format_value] gives a non-string (a "type" other than "givetip",
    say), then [update_tips], with no call failing, raises, and nothing is
    logged or submitted to the wiki. *)
Theorem one_bad_cell_stops_the_tips_page
        (rt : Runtime) (ctb : CointipBot) (w : World)
        (t : Row) (k : string) (v : value) :
  faults w = [] ->
  let tips := run_sql rt (db_sql_tips_sql_list (conf ctb))
                      [db_sql_tips_limit (conf ctb)] (t_action w) in
  In t (rows tips) ->
  In k (keys tips) ->
  format_value rt ctb t k "" false = inr v ->
  as_str v = None ->
  exists e w',
    update_tips rt ctb w = (inl e, w')
    /\ trace w' = trace w.
Proof.
  intros Hf tips Ht Hk Hv Hs.
  destruct (update_tips_outcome rt ctb w Hf) as (w' & Hrun & Htr & _).
  unfold tips_outcome in Hrun, Htr. fold tips in Hrun, Htr. cbv zeta in Hrun, Htr.
  match type of Hrun with
  | context [build_table rt ctb ?s (keys tips) (rows tips)] =>
      destruct (build_table_bad rt ctb (keys tips) t k v (rows tips)
                  Ht Hk Hv Hs s) as (e & He);
      rewrite He in Hrun, Htr
  end.
  cbn [fst snd] in Hrun, Htr. rewrite app_nil_r in Htr.
  exists e, w'. auto.
Qed.

Lemma one_bad_cell_stops_the_tips_page_witness :
  exists e w',
    update_tips Sample.rt0 Sample.bot0
      (Sample.world [] [Sample.old_tip; SampleX.registration] [])
    = (inl e, w')
    /\ trace w' = [].
Proof.
  exact (@one_bad_cell_stops_the_tips_page Sample.rt0 Sample.bot0
           (Sample.world [] [Sample.old_tip; SampleX.registration] [])
           (Sample.row_of SampleX.registration) "type" VNone
           eq_refl (or_intror (or_introl eq_refl)) (or_introl eq_refl)
           eq_refl eq_refl).
Defined.

(* ================================================================== *)
(** ** The statistics pages *)

Import ctb_stats ctb_stats_pages Published.

Lemma edited_snoc_log (tr : list event) (l : level) (f : string) :
  edited (tr ++ [EvLog l f]) = edited tr.
Proof. unfold edited. rewrite flat_map_app. cbn. apply app_nil_r. Qed.

Lemma edited_snoc_edit (tr : list event) (p c : string) :
  edited (tr ++ [EvWikiEdit p c]) = (edited tr ++ [p])%list.
Proof. unfold edited. rewrite flat_map_app. reflexivity. Qed.

Lemma reads_only_refl (w : World) : reads_only w w.
Proof. unfold reads_only. repeat split; reflexivity. Qed.

Lemma log_quiet (w0 : World) (P : list string) (l : level) (f : string) :
  invariant (pages_so_far w0 P) (fun _ => True) (log l f).
Proof.
  apply invariant_modify. intros w [Hr He]. split; [exact Hr|].
  cbn [trace emit]. rewrite edited_snoc_log. exact He.
Qed.

Lemma upstream_quiet (w0 : World) (P : list string) :
  invariant (pages_so_far w0 P) (fun _ => True) upstream.
Proof.
  apply invariant_upstream.
  - intros w fs H _. exact H.
  - intros w e fs H _. split; [exact H|exact I].
Qed.

Lemma lift_quiet {A : Type} (w0 : World) (P : list string) (m : E A) :
  invariant (pages_so_far w0 P) (fun _ => True) (lift m).
Proof.
  intros w H. unfold lift. destruct m; [split; [exact H|exact I]|exact H].
Qed.

Lemma db_execute_quiet (w0 : World) (P : list string) (rt : Runtime)
      (sql : string) (ps : list Z) :
  invariant (pages_so_far w0 P) (fun _ => True) (db_execute rt sql ps).
Proof.
  unfold db_execute.
  apply invariant_bind; [apply upstream_quiet|intros ?; apply invariant_gets].
Qed.

Lemma db_query_quiet (w0 : World) (P : list string) (prt : PagesRuntime)
      (sql : string) (ps : list value) :
  invariant (pages_so_far w0 P) (fun _ => True) (db_query prt sql ps).
Proof.
  unfold db_query.
  apply invariant_bind; [apply upstream_quiet|intros ?; apply invariant_gets].
Qed.

Ltac quiet_step :=
  match goal with
  | |- invariant _ _ (ret _) => apply invariant_ret
  | |- invariant _ _ (gets _) => apply invariant_gets
  | |- invariant _ _ (log _ _) => apply log_quiet
  | |- invariant _ _ (lift _) => apply lift_quiet
  | |- invariant _ _ (db_execute _ _ _) => apply db_execute_quiet
  | |- invariant _ _ (db_query _ _ _) => apply db_query_quiet
  | |- invariant _ _ upstream => apply upstream_quiet
  | |- invariant _ _ (bind _ _) => apply invariant_bind; [|intros ?]
  | |- invariant _ _ (raise _) => apply invariant_raise; exact I
  | |- invariant _ _ (if ?b then _ else _) => destruct b
  | |- invariant _ _ (match ?o with Some _ => _ | None => _ end) => destruct o
  end.

Ltac quiet_auto := repeat quiet_step.

Ltac quiet_bind :=
  cbv beta;
  match goal with
  | |- hoare (pages_so_far ?w0 ?P) (bind _ _) _ _ =>
      eapply hoare_bind with (R := fun _ => pages_so_far w0 P);
      [ apply hoare_of_invariant with (E := fun _ => True); [quiet_auto|auto|auto]
      | intros ? ]
  end.

(** Submitting a page is the one step that adds to the pages, and it adds
    nothing when the call fails. *)
Lemma publish_spec {A : Type} (w0 : World) (P : list string)
      (page content : string) (a : A) :
  hoare (pages_so_far w0 P)
        (bind (ctb_misc.praw_call (wiki_edit page content)) (fun _ => ret a))
        (fun r w => r = a /\ pages_so_far w0 (P ++ [page]) w)
        (fun _ w => pages_so_far w0 P w).
Proof.
  intros w [Hr He].
  unfold ctb_misc.praw_call, wiki_edit, bind, upstream, modify, ret.
  destruct (faults w) as [|[e|] fs].
  - split; [reflexivity|]. split; [exact Hr|].
    cbn [trace emit]. rewrite edited_snoc_edit, He. reflexivity.
  - split; [exact Hr|exact He].
  - split; [reflexivity|]. split; [exact Hr|]. cbn [trace emit with_faults].
    rewrite edited_snoc_edit. cbn [trace]. rewrite He. reflexivity.
Qed.

Lemma stats_section_quiet (w0 : World) (P : list string) (rt : Runtime)
      (ctb : CointipBot) (sc : StatsConf) (stats s : string) :
  invariant (pages_so_far w0 P) (fun _ => True) (stats_section rt ctb sc stats s).
Proof. unfold stats_section. cbv zeta. quiet_auto. Qed.

Lemma stats_loop_quiet (w0 : World) (P : list string) (rt : Runtime)
      (ctb : CointipBot) (sc : StatsConf) (names : list string) :
  forall stats,
    invariant (pages_so_far w0 P) (fun _ => True) (stats_loop rt ctb sc names stats).
Proof.
  induction names as [|s r IH]; intros stats; cbn [stats_loop].
  - apply invariant_ret.
  - apply invariant_bind; [apply stats_section_quiet|].
    intros [st|]; [apply IH|apply invariant_ret].
Qed.

Lemma update_stats_spec (w0 : World) (P : list string) (rt : Runtime)
      (ctb : CointipBot) (sc : StatsConf) :
  hoare (pages_so_far w0 P) (update_stats rt ctb sc)
        (fun r w =>
           match r with
           | Returned_edit =>
               pages_so_far w0 (P ++ [reddit_stats_page (conf ctb)]) w
           | Returned_False => pages_so_far w0 P w
           end)
        (fun _ w => pages_so_far w0 P w).
Proof.
  unfold update_stats.
  eapply hoare_bind with (R := fun _ => pages_so_far w0 P).
  - apply hoare_of_invariant with (E := fun _ => True); [apply stats_loop_quiet|auto|auto].
  - intros [stats|].
    + quiet_bind.
      eapply hoare_conseq; [exact (publish_spec w0 P _ _ _)|auto| |auto].
      intros r w [-> H]. exact H.
    + apply hoare_ret. auto.
Qed.

(** X14.  [update_stats] reads only, and submits the statistics page as
    its very last step: whatever the environment does, the state is left
    as it was, the only page it can have submitted is the statistics page,
    and that exactly when it returns what the edit returned; when it
    raises or returns [False] the wiki is untouched. *)
Theorem update_stats_publishes_last (rt : Runtime) (ctb : CointipBot)
        (sc : StatsConf) (w : World) :
  reads_only w (snd (update_stats rt ctb sc w)) /\
  edited (trace (snd (update_stats rt ctb sc w)))
  = (edited (trace w)
     ++ match fst (update_stats rt ctb sc w) with
        | inr Returned_edit => [reddit_stats_page (conf ctb)]
        | _ => []
        end)%list.
Proof.
  pose proof (update_stats_spec w (edited (trace w)) rt ctb sc w
                (conj (reads_only_refl w) eq_refl)) as H.
  destruct (update_stats rt ctb sc w) as [[e|[|]] w']; cbn [fst snd];
    destruct H as [Hr He]; rewrite ?app_nil_r; split; assumption.
Qed.

(** X15.  [update_tips] reads only and submits the tips page as its last
    step: a run that raises, at any point and for any reason, has
    submitted nothing, and a run that returns has submitted the tips page
    once. *)
Theorem update_tips_publishes_last (rt : Runtime) (ctb : CointipBot) (w : World) :
  reads_only w (snd (update_tips rt ctb w)) /\
  edited (trace (snd (update_tips rt ctb w)))
  = (edited (trace w)
     ++ match fst (update_tips rt ctb w) with
        | inr _ => [reddit_stats_page_tips (conf ctb)]
        | inl _ => []
        end)%list.
Proof.
  assert (hoare (pages_so_far w (edited (trace w))) (update_tips rt ctb)
            (fun _ w' =>
               pages_so_far w (edited (trace w) ++ [reddit_stats_page_tips (conf ctb)]) w')
            (fun _ w' => pages_so_far w (edited (trace w)) w')) as S.
  { unfold update_tips. cbv zeta. do 4 quiet_bind.
    eapply hoare_conseq; [exact (publish_spec w (edited (trace w)) _ _ _)|auto| |auto].
    intros r w' [_ H]. exact H. }
  specialize (S w (conj (reads_only_refl w) eq_refl)).
  destruct (update_tips rt ctb w) as [[e|b] w']; cbn [fst snd];
    destruct S as [Hr He]; rewrite ?app_nil_r; split; assumption.
Qed.

(* ================================================================== *)
(** ** A section of unknown type *)

Lemma lookup_in (s : string) (d : list (string * GlobalStat)) (g : GlobalStat) :
  lookup s d = inr g -> In s (map fst d).
Proof.
  induction d as [|[k g'] r IH]; cbn [lookup map fst In]; [discriminate|].
  destruct (String.eqb k s) eqn:E.
  - apply String.eqb_eq in E. auto.
  - auto.
Qed.

Lemma insert_in (x y : string) (l : list string) :
  In x (insert y l) <-> y = x \/ In x l.
Proof.
  induction l as [|a l IH]; cbn [insert In]; [tauto|].
  destruct (String.leb y a); cbn [In]; [tauto|]. rewrite IH. tauto.
Qed.

Lemma sorted_in (x : string) (l : list string) : In x (sorted l) <-> In x l.
Proof.
  induction l as [|a l IH]; cbn [sorted fold_right In]; [tauto|].
  rewrite insert_in. fold (sorted l). rewrite IH. tauto.
Qed.

Lemma stats_section_keeps_ledger (rt : Runtime) (ctb : CointipBot)
      (sc : StatsConf) (stats s : string) (w : World) :
  t_action (snd (stats_section rt ctb sc stats s w)) = t_action w.
Proof.
  destruct (invariant_run (pages_so_far w (edited (trace w))) (fun _ => True)
              (stats_section rt ctb sc stats s) w
              (stats_section_quiet _ _ rt ctb sc stats s)
              (conj (reads_only_refl w) eq_refl)) as [[Hr _] _].
  apply Hr.
Qed.

(** A section whose query has rows and whose type is neither ["line"] nor
    ["table"] ends the loop with [return False], unless its query raised. *)
Lemma stats_section_unknown_type (rt : Runtime) (ctb : CointipBot)
      (sc : StatsConf) (stats s : string) (g : GlobalStat) (w : World) :
  lookup s (db_sql_globalstats sc) = inr g ->
  gs_type g <> "line" -> gs_type g <> "table" ->
  rows (run_sql rt (gs_query g) [] (t_action w)) <> [] ->
  forall st, fst (stats_section rt ctb sc stats s w) <> inr (Some st).
Proof.
  intros Hl H1 H2 Hr st.
  apply String.eqb_neq in H1. apply String.eqb_neq in H2.
  assert (Z.leb (rowcount (run_sql rt (gs_query g) [] (t_action w))) 0 = false) as Hc.
  { unfold rowcount. destruct (rows _); [congruence|]. cbn [List.length].
    apply Z.leb_gt. lia. }
  cbv beta iota zeta
      delta [stats_section bind log modify lift db_execute upstream gets ret].
  rewrite Hl. cbn [faults emit t_action with_faults].
  destruct (faults w) as [|[e|] fs]; cbn [t_action with_faults emit];
    rewrite ?Hc, ?H1, ?H2; cbn [fst]; discriminate.
Qed.

Lemma stats_loop_unknown_type (rt : Runtime) (ctb : CointipBot) (sc : StatsConf)
      (s : string) (g : GlobalStat) (L : list Action) :
  lookup s (db_sql_globalstats sc) = inr g ->
  gs_type g <> "line" -> gs_type g <> "table" ->
  rows (run_sql rt (gs_query g) [] L) <> [] ->
  forall names stats w,
    In s names -> t_action w = L ->
    forall st, fst (stats_loop rt ctb sc names stats w) <> inr (Some st).
Proof.
  intros Hl H1 H2 Hr.
  induction names as [|s0 r IH]; intros stats w Hin Hw st; [destruct Hin|].
  cbn [stats_loop]. unfold bind.
  pose proof (stats_section_keeps_ledger rt ctb sc stats s0 w) as Hk.
  destruct (stats_section rt ctb sc stats s0 w) as [[e|[st'|]] w1] eqn:Es;
    cbn [fst snd] in *; try discriminate.
  destruct Hin as [->|Hin].
  - exfalso. rewrite <- Hw in Hr.
    apply (stats_section_unknown_type rt ctb sc stats s g w Hl H1 H2 Hr st').
    rewrite Es. reflexivity.
  - apply IH; [exact Hin|congruence].
Qed.

(** X16.  One section of unknown type is enough to keep the statistics
    page from being submitted: when the configuration holds a section
    whose type is neither ["line"] nor ["table"] and whose query has rows
    on the current ledger, [update_stats] never returns the edit and
    leaves the wiki untouched, whatever the other sections are and
    whatever the environment does. *)
Theorem unknown_section_type_stops_the_stats_page
        (rt : Runtime) (ctb : CointipBot) (sc : StatsConf)
        (s : string) (g : GlobalStat) (w : World) :
  lookup s (db_sql_globalstats sc) = inr g ->
  gs_type g <> "line" -> gs_type g <> "table" ->
  rows (run_sql rt (gs_query g) [] (t_action w)) <> [] ->
  fst (update_stats rt ctb sc w) <> inr Returned_edit /\
  edited (trace (snd (update_stats rt ctb sc w))) = edited (trace w).
Proof.
  intros Hl H1 H2 Hr.
  assert (fst (update_stats rt ctb sc w) <> inr Returned_edit) as Hn.
  { unfold update_stats, bind.
    pose proof (stats_loop_unknown_type rt ctb sc s g (t_action w) Hl H1 H2 Hr
                  (sorted (map fst (db_sql_globalstats sc))) "" w) as Hs.
    destruct (stats_loop rt ctb sc _ "" w) as [[e|[st|]] w1]; cbn [fst];
      try discriminate.
    exfalso. apply (Hs (proj2 (sorted_in _ _) (lookup_in _ _ _ Hl)) eq_refl st).
    reflexivity. }
  split; [exact Hn|].
  pose proof (update_stats_spec w (edited (trace w)) rt ctb sc w
                (conj (reads_only_refl w) eq_refl)) as H.
  destruct (update_stats rt ctb sc w) as [[e|[|]] w']; cbn [fst snd] in *.
  - apply H.
  - apply H.
  - congruence.
Qed.

Lemma unknown_section_type_stops_the_stats_page_witness :
  fst (update_stats Sample.rt0 Sample.bot0 SampleX.stats_conf SampleX.stats_world)
  <> inr Returned_edit /\
  edited (trace (snd (update_stats Sample.rt0 Sample.bot0 SampleX.stats_conf
                                   SampleX.stats_world)))
  = edited (trace SampleX.stats_world).
Proof.
  apply (unknown_section_type_stops_the_stats_page
           Sample.rt0 Sample.bot0 SampleX.stats_conf "chart"
           SampleX.chart_section SampleX.stats_world).
  - reflexivity.
  - intros H. vm_compute in H. discriminate.
  - intros H. vm_compute in H. discriminate.
  - intros H. vm_compute in H. discriminate.
Defined.

(* ================================================================== *)
(** ** The user pages *)

Lemma hoare_pure {A : Type} (F : Prop) (P : World -> Prop) (c : M A)
      (Q : A -> World -> Prop) (X : exn -> World -> Prop) :
  (F -> hoare P c Q X) -> hoare (fun w => F /\ P w) c Q X.
Proof. intros H w [Hf Hp]. exact (H Hf w Hp). Qed.

Lemma hoare_exists {A B : Type} (P : B -> World -> Prop) (c : M A)
      (Q : A -> World -> Prop) (X : exn -> World -> Prop) :
  (forall b, hoare (P b) c Q X) -> hoare (fun w => exists b, P b w) c Q X.
Proof. intros H w [b Hp]. exact (H b w Hp). Qed.

Lemma totals_quiet (w0 : World) (P : list string) (rt : Runtime)
      (prt : PagesRuntime) (ctb : CointipBot) (sql : string) (u : value)
      (coins : list value) :
  forall user_stats,
    invariant (pages_so_far w0 P) (fun _ => True)
              (totals rt prt ctb sql u coins user_stats).
Proof.
  induction coins as [|c r IH]; intros user_stats; cbn [totals].
  - apply invariant_ret.
  - cbv zeta. apply invariant_bind; [apply db_query_quiet|intros q].
    apply invariant_bind; [apply lift_quiet|intros v].
    apply invariant_bind; [|intros ?; apply IH].
    destruct v; quiet_auto.
Qed.

(** [update_user_stats] submits the page of the user as its last step, and
    only for a name that is a [str]. *)
Lemma update_user_stats_spec (w0 : World) (P : list string) (rt : Runtime)
      (prt : PagesRuntime) (ctb : CointipBot) (sc : StatsConf) (u : value) :
  hoare (pages_so_far w0 P) (update_user_stats rt prt ctb sc u)
        (fun _ w => exists n, u = VStr n /\ pages_so_far w0 (P ++ [user_page ctb n]) w)
        (fun _ w => pages_so_far w0 P w).
Proof.
  unfold update_user_stats. cbv zeta.
  do 2 quiet_bind.
  eapply hoare_bind with (R := fun n w => u = VStr n /\ pages_so_far w0 P w).
  { intros w H. unfold lift. destruct u; cbn; auto. }
  intros n. apply hoare_pure. intros ->.
  eapply hoare_bind with (R := fun _ => pages_so_far w0 P);
    [apply hoare_of_invariant with (E := fun _ => True);
     [apply totals_quiet|auto|auto]|intros ?].
  eapply hoare_bind with (R := fun _ => pages_so_far w0 P);
    [apply hoare_of_invariant with (E := fun _ => True);
     [apply totals_quiet|auto|auto]|intros ?].
  do 3 quiet_bind.
  eapply hoare_conseq; [exact (publish_spec w0 P _ _ _)|auto| |auto].
  intros r w [_ H]. exists n. split; [reflexivity|exact H].
Qed.

(** X17.  [update_user_stats] reads only and is all or nothing: whatever
    the environment does, a run that returns was given a name that is a
    [str] and has submitted that user's page, once and as its last step;
    a run that raises has submitted nothing.  In particular a call
    without a user name, whose default is [None], never submits a page. *)
Theorem update_user_stats_publishes_last
        (rt : Runtime) (prt : PagesRuntime) (ctb : CointipBot) (sc : StatsConf)
        (u : value) (w : World) :
  reads_only w (snd (update_user_stats rt prt ctb sc u w)) /\
  match fst (update_user_stats rt prt ctb sc u w) with
  | inr _ =>
      exists n, u = VStr n /\
        edited (trace (snd (update_user_stats rt prt ctb sc u w)))
        = (edited (trace w) ++ [user_page ctb n])%list
  | inl _ =>
      edited (trace (snd (update_user_stats rt prt ctb sc u w))) = edited (trace w)
  end.
Proof.
  pose proof (update_user_stats_spec w (edited (trace w)) rt prt ctb sc u w
                (conj (reads_only_refl w) eq_refl)) as H.
  destruct (update_user_stats rt prt ctb sc u w) as [[e|b] w']; cbn [fst snd].
  - destruct H as [Hr He]. split; assumption.
  - destruct H as [n [Hu [Hr He]]]. split; [exact Hr|]. exists n. split; assumption.
Qed.

(** The loop of [update_all_user_stats]: the pages submitted are those of
    the users handled, in order; the loop ends early exactly at a user
    whose page was not submitted. *)
Lemma user_loop_spec (w0 : World) (rt : Runtime) (prt : PagesRuntime)
      (ctb : CointipBot) (sc : StatsConf) :
  forall (rs : list Row) (P : list string),
    hoare (pages_so_far w0 P)
          (for_each rs (fun u =>
             bind (lift (getitem u "username")) (fun username =>
             bind (update_user_stats rt prt ctb sc username) (fun _ => ret tt))))
          (fun _ w =>
             exists names, usernames rs = strs names /\
               pages_so_far w0 (P ++ map (user_page ctb) names) w)
          (fun _ w =>
             exists names rest, usernames rs = (strs names ++ rest)%list /\
               rest <> [] /\
               pages_so_far w0 (P ++ map (user_page ctb) names) w).
Proof.
  induction rs as [|u r IH]; intros P; cbn [for_each].
  - apply hoare_ret. intros w H. exists []. cbn [map]. rewrite app_nil_r.
    split; [reflexivity|exact H].
  - eapply hoare_bind
      with (R := fun _ w => exists n, getitem u "username" = inr (VStr n) /\
                   pages_so_far w0 (P ++ [user_page ctb n]) w).
    + eapply hoare_bind
        with (R := fun v w => getitem u "username" = inr v /\ pages_so_far w0 P w).
      * intros w H. unfold lift.
        destruct (getitem u "username") as [e|v] eqn:Eu.
        -- exists [], (usernames (u :: r)). cbn [map strs]. rewrite app_nil_r.
           split; [reflexivity|]. split; [discriminate|exact H].
        -- split; [reflexivity|exact H].
      * intros v. apply hoare_pure. intros Hv.
        eapply hoare_bind
          with (R := fun _ w => exists n, v = VStr n /\
                       pages_so_far w0 (P ++ [user_page ctb n]) w).
        -- eapply hoare_conseq;
             [exact (update_user_stats_spec w0 P rt prt ctb sc v)|auto|auto|].
           intros e w H. exists [], (usernames (u :: r)). cbn [map strs].
           rewrite app_nil_r. split; [reflexivity|]. split; [discriminate|exact H].
        -- intros ?. apply hoare_ret. intros w [n [-> H]]. exists n.
           split; [exact Hv|exact H].
    + intros ?. apply hoare_exists. intros n. apply hoare_pure. intros Hn.
      eapply hoare_conseq; [exact (IH (P ++ [user_page ctb n])%list)|auto| |].
      * intros ? w1 [names [Hu H]]. exists (n :: names).
        split.
        -- unfold usernames in *. cbn [map strs]. rewrite Hn, Hu. reflexivity.
        -- cbn [map]. rewrite <- app_assoc in H. exact H.
      * intros ? w1 [names [rest [Hu [Hne H]]]]. exists (n :: names), rest.
        split; [|split; [exact Hne|]].
        -- unfold usernames in *. cbn [map strs app]. rewrite Hn, Hu. reflexivity.
        -- cbn [map]. rewrite <- app_assoc in H. exact H.
Qed.

(** X18.  [update_all_user_stats] submits the pages of a prefix of the
    users, in the order of the users query: whatever the environment
    does, the names of that prefix are [str]s, their pages are what was
    submitted, nothing else of the state has changed, and when the
    function returns the prefix is the whole list.  The first user whose
    page fails ends the run: no later user gets a page. *)
Theorem update_all_user_stats_publishes_a_prefix
        (rt : Runtime) (prt : PagesRuntime) (ctb : CointipBot) (sc : StatsConf)
        (w : World) :
  exists names rest,
    usernames (rows (run_query prt (db_sql_userstats_users sc) []
                               (t_action w) (t_users w)))
    = (strs names ++ rest)%list /\
    reads_only w (snd (update_all_user_stats rt prt ctb sc w)) /\
    edited (trace (snd (update_all_user_stats rt prt ctb sc w)))
    = (edited (trace w) ++ map (user_page ctb) names)%list /\
    (forall v, fst (update_all_user_stats rt prt ctb sc w) = inr v -> rest = []).
Proof.
  set (users := rows (run_query prt (db_sql_userstats_users sc) []
                                (t_action w) (t_users w))).
  assert (hoare (pages_so_far w (edited (trace w)))
            (update_all_user_stats rt prt ctb sc)
            (fun _ w' =>
               exists names, usernames users = strs names /\
                 pages_so_far w (edited (trace w) ++ map (user_page ctb) names) w')
            (fun _ w' =>
               exists names rest, usernames users = (strs names ++ rest)%list /\
                 pages_so_far w (edited (trace w) ++ map (user_page ctb) names) w'))
    as S.
  { unfold update_all_user_stats.
    eapply hoare_bind
      with (R := fun q w' => rows q = users /\ pages_so_far w (edited (trace w)) w').
    - intros w1 H. unfold db_query, bind, upstream, gets.
      destruct (faults w1) as [|[e|] fs].
      + split; [|exact H]. destruct H as [[_ [Ha [Hu _]]] _].
        unfold users. rewrite Ha, Hu. reflexivity.
      + exists [], (usernames users). cbn [map strs]. rewrite app_nil_r.
        split; [reflexivity|exact H].
      + cbn [t_action t_users with_faults]. split; [|exact H].
        destruct H as [[_ [Ha [Hu _]]] _].
        unfold users. rewrite Ha, Hu. reflexivity.
    - intros q. apply hoare_pure. intros ->.
      eapply hoare_conseq;
        [exact (user_loop_spec w rt prt ctb sc users (edited (trace w)))
        |auto|auto|].
      intros e w' [names [rest [Hu [_ H]]]]. exists names, rest.
      split; assumption. }
  specialize (S w (conj (reads_only_refl w) eq_refl)).
  destruct (update_all_user_stats rt prt ctb sc w) as [[e|[]] w']; cbn [fst snd].
  - destruct S as [names [rest [Hu [Hr He]]]]. exists names, rest.
    repeat split; try assumption; try apply Hr. discriminate.
  - destruct S as [names [Hu [Hr He]]]. exists names, [].
    rewrite app_nil_r. repeat split; try assumption; try apply Hr.
Qed.
